(** * RegNet design-space generator of mindcv: a shallow embedding

    The development follows [mindcv/models/regnet.py].  Python integers are
    [Z]; Python and numpy floats are idealised as exact rationals [Q], so
    [int], [round], [%] and true division are the exact operations on
    rationals ([round] and [np.round] round half to even, [int] truncates
    toward zero).  Exceptions are values of [exn] returned through
    [result]. *)

From Stdlib Require Import ZArith QArith Qround Lia Lqa Sorted.
From stdpp Require Import gmap strings list.

Local Open Scope Z_scope.

(** ** Exceptions *)

Inductive exn : Type :=
| AssertionError (msg : string)
| AttributeError (msg : string)
| TypeError (msg : string)
| ValueError (msg : string)
| KeyError (key : string)
| ZeroDivisionError.

Inductive result (A : Type) : Type :=
| Ok (a : A)
| Raise (e : exn).
Arguments Ok {A} a.
Arguments Raise {A} e.

#[global] Instance result_ret : MRet result := fun _ a => Ok a.

#[global] Instance result_bind : MBind result := fun _ _ k m =>
  match m with
  | Ok a => k a
  | Raise e => Raise e
  end.

(** [assert c, msg] *)
Definition py_assert (c : bool) (msg : string) : result unit :=
  if c then Ok tt else Raise (AssertionError msg).

(** ** Python numerics on exact rationals *)

Module Py.

Definition ltb (x y : Q) : bool := negb (Qle_bool y x).

(** [max(1, x)]: the first argument is kept unless the second is larger. *)
Definition max1 (x : Q) : Q := if ltb 1 x then x else 1%Q.

(** [int(x)]: truncation toward zero. *)
Definition int (x : Q) : Z := Z.quot (Qnum x) (Z.pos (Qden x)).

(** [round(x)] with one argument and [np.round(x)]: nearest integer, ties to
    the even neighbour. *)
Definition round (x : Q) : Z :=
  let f := Qfloor x in
  match (x - inject_Z f ?= 1 # 2)%Q with
  | Lt => f
  | Gt => f + 1
  | Eq => if Z.even f then f else f + 1
  end.

(** [x % g] for a float [x] and a positive integer [g]. *)
Definition fmod (x : Q) (g : Z) : Q :=
  (x - inject_Z g * inject_Z (Qfloor (x / inject_Z g)))%Q.

(** [x / y] on two integers (true division). *)
Definition truediv (x y : Z) : Q := (inject_Z x / inject_Z y)%Q.

End Py.

(** ** Group-compatibility adjustment *)

(** [zip(ws, bs, gs)] *)
Definition zip3 (ws : list Z) (bs : list Q) (gs : list Z) : list (Z * Q * Z) :=
  zip (zip ws bs) gs.

(** [vs = [int(max(1, w * b)) for w, b in zip(ws, bs)]] *)
Definition bottleneck_widths (ws : list Z) (bs : list Q) : list Z :=
  zip_with (fun w b => Py.int (Py.max1 (inject_Z w * b))) ws bs.

(** [gs = [int(min(g, v)) for g, v in zip(gs, vs)]] *)
Definition clipped_groups (gs vs : list Z) : list Z :=
  zip_with (fun g v => Z.min g v) gs vs.

(** [ms = [np.lcm(g, int(b)) if b > 1 else g for g, b in zip(gs, bs)]] *)
Definition moduli (gs : list Z) (bs : list Q) : list Z :=
  zip_with (fun g b => if Py.ltb 1 b then Z.lcm g (Py.int b) else g) gs bs.

(** [vs = [max(m, int(round(v / m) * m)) for v, m in zip(vs, ms)]] *)
Definition rounded_widths (vs ms : list Z) : list Z :=
  zip_with (fun v m => Z.max m (Py.round (Py.truediv v m) * m)) vs ms.

(** [ws = [int(v / b) for v, b in zip(vs, bs)]] *)
Definition back_solved (vs : list Z) (bs : list Q) : list Z :=
  zip_with (fun v b => Py.int (inject_Z v / b)) vs bs.

(** [w * b % g == 0] *)
Definition compatible (w : Z) (b : Q) (g : Z) : bool :=
  Qeq_bool (Py.fmod (inject_Z w * b) g) 0.

Definition all_positive (ws : list Z) (bs : list Q) (gs : list Z) : bool :=
  forallb (fun '(w, b, g) => (0 <? w) && Py.ltb 0 b && (0 <? g)) (zip3 ws bs gs).

(** [b < 1 or b % 1 == 0] *)
Definition admissible (b : Q) : bool := Py.ltb b 1 || Qeq_bool (Py.fmod b 1) 0.

Definition ratios_admissible (bs : list Q) : bool := forallb admissible bs.

Definition all_compatible (ws : list Z) (bs : list Q) (gs : list Z) : bool :=
  forallb (fun '(w, b, g) => compatible w b g) (zip3 ws bs gs).

Definition adjust_block_compatibility (ws : list Z) (bs : list Q) (gs : list Z)
  : result (list Z * list Q * list Z) :=
  _ ← py_assert ((length ws =? length bs)%nat && (length bs =? length gs)%nat) "";
  _ ← py_assert (all_positive ws bs gs) "";
  _ ← py_assert (ratios_admissible bs) "";
  let vs := bottleneck_widths ws bs in
  let gs := clipped_groups gs vs in
  let ms := moduli gs bs in
  let vs := rounded_widths vs ms in
  let ws := back_solved vs bs in
  _ ← py_assert (all_compatible ws bs gs) "";
  Ok (ws, bs, gs).

(** ** Width quantizer *)

(** [np.arange(d)] *)
Definition arange (d : Z) : list Z := Z.of_nat <$> seq 0 (Z.to_nat d).

(** One step of [np.unique(..., return_counts=True)]: the table of sorted
    distinct values with their multiplicities receives one more value. *)
Fixpoint count_insert (x : Z) (tbl : list (Z * Z)) : list (Z * Z) :=
  match tbl with
  | [] => [(x, 1)]
  | (y, c) :: rest =>
      if x <? y then (x, 1) :: (y, c) :: rest
      else if x =? y then (y, c + 1) :: rest
      else (y, c) :: count_insert x rest
  end.

(** [np.unique(a, return_counts=True)]: the sorted distinct values of [a]
    and how often each occurs. *)
Definition np_unique_counts (a : list Z) : list Z * list Z :=
  let tbl := foldr count_insert [] a in (tbl.*1, tbl.*2).

(** [a.max()] of a numpy array; an empty array has no maximum. *)
Definition np_max (a : list Z) : result Z :=
  match a with
  | [] => Raise (ValueError "zero-size array to reduction operation maximum which has no identity")
  | x :: rest => Ok (foldr Z.max x rest)
  end.

Section Generator.

(** [np.round(np.log(x) / np.log(b))].  The logarithm leaves the
    rationals, so the rounded quotient of logarithms is a parameter of the
    generator; [round_log_exact] below is its real-number reading. *)
Variable round_log : Q -> Q -> Z.

(** [ws_cont = np.arange(d) * w_a + w_0] *)
Definition ws_cont_of (w_a : Q) (w_0 d : Z) : list Q :=
  (fun i => inject_Z i * w_a + inject_Z w_0)%Q <$> arange d.

(** [ks = np.round(np.log(ws_cont / w_0) / np.log(w_m))] *)
Definition ks_of (ws_cont : list Q) (w_0 : Z) (w_m : Q) : list Z :=
  (fun w => round_log (w / inject_Z w_0)%Q w_m) <$> ws_cont.

(** [ws_all = w_0 * np.power(w_m, ks)] followed by
    [ws_all = np.round(np.divide(ws_all, q)).astype(int) * q] *)
Definition ws_all_of (ks : list Z) (w_0 : Z) (w_m : Q) (q : Z) : list Z :=
  (fun k => Py.round ((inject_Z w_0 * Qpower w_m k) / inject_Z q)%Q * q) <$> ks.

Definition generate_regnet (w_a : Q) (w_0 : Z) (w_m : Q) (d : Z) (q : Z)
  : result (list Z * list Z * Z * Z * list Z * list Q) :=
  (* assert w_a >= 0 and w_0 > 0 and w_m > 1 and w_0 % q == 0 *)
  _ ← py_assert (Qle_bool 0 w_a && (0 <? w_0) && Py.ltb 1 w_m) "";
  _ ← (if q =? 0 then Raise ZeroDivisionError else Ok tt);
  _ ← py_assert (w_0 mod q =? 0) "";
  let ws_cont := ws_cont_of w_a w_0 d in
  let ks := ks_of ws_cont w_0 w_m in
  let ws_all := ws_all_of ks w_0 w_m q in
  let '(ws, ds) := np_unique_counts ws_all in
  let num_stages := Z.of_nat (length ws) in
  ks_max ← np_max ks;
  let total_stages := ks_max + 1 in
  Ok (ws, ds, num_stages, total_stages, ws_all, ws_cont).

Definition generate_regnet_full (w_a : Q) (w_0 : Z) (w_m : Q) (d stride : Z)
    (bot_mul : Q) (group_w : Z)
  : result (list Z * list Z * list Z * list Q * list Z) :=
  r ← generate_regnet w_a w_0 w_m d 8;
  let '(ws, ds, _, _, _, _) := r in
  let ss := (fun _ => stride) <$> ws in
  let bs := (fun _ => bot_mul) <$> ws in
  let gs := (fun _ => group_w) <$> ws in
  r ← adjust_block_compatibility ws bs gs;
  let '(ws, bs, gs) := r in
  Ok (ws, ds, ss, bs, gs).

End Generator.

(** The real-number reading of [np.round(np.log(x) / np.log(b))] for
    [b > 1], computed on rationals: with [n] the largest integer such that
    [b ^ n <= x * x], the logarithm of [x] to base [b] lies in
    [[n/2, (n+1)/2)]. *)
Fixpoint floor_log (fuel : nat) (b y acc : Q) (n : Z) : Z :=
  match fuel with
  | O => n
  | S fuel' => if Qle_bool (acc * b) y then floor_log fuel' b y (acc * b)%Q (n + 1) else n
  end.

Definition round_log_up (x b : Q) : Z :=
  let y := Qred (x * x) in
  let fuel := Z.to_nat (Qceiling ((y - 1) / (b - 1))) in
  let n := floor_log fuel (Qred b) y 1%Q 0 in
  let j := n / 2 in
  if Z.even n then j
  else if Qeq_bool (Qpower b n) y then (if Z.even j then j else j + 1)
  else j + 1.

Definition round_log_exact (x b : Q) : Z :=
  if Py.ltb x 1 then - round_log_up (/ x) b else round_log_up x b.

(** ** Layers

    The tensor operators of MindSpore are external; a layer is the record of
    the shape parameters it was built with. *)

Record Conv2d := {
  conv_in : Z; conv_out : Z; conv_k : Z; conv_stride : Z;
  conv_padding : Z; conv_group : Z; conv_has_bias : bool }.

Record BatchNorm2d := {
  num_features : Z; bn_eps_of : Q; bn_momentum : Q; final_bn : bool }.

(** [nn.SequentialCell([pad2d, max_pool])] *)
Record Pool2d := { pool_k : Z; pool_stride : Z; pool_padding : Z }.

Record Dense := { dense_in : Z; dense_out : Z; dense_has_bias : bool }.

Inductive AdaptiveAvgPool2d := ReduceMean_keep_dims.
Inductive ReLU := nn_ReLU.
Inductive Sigmoid := nn_Sigmoid.

Definition odd_kernel_msg : string :=
  "Only odd size kernels supported to avoid padding issues.".

(** [conv2d(w_in, w_out, k, *, stride=1, groups=1, bias=False)].  The weight
    initializer is shaped [[w_out, w_in // g, k, k]], which divides by the
    number of groups. *)
Definition conv2d (w_in w_out k stride groups : Z) (bias : bool) : result Conv2d :=
  _ ← py_assert (k mod 2 =? 1) odd_kernel_msg;
  let '(s, p, g, b) := (stride, (k - 1) / 2, groups, bias) in
  _ ← (if g =? 0 then Raise ZeroDivisionError else Ok tt);
  Ok {| conv_in := w_in; conv_out := w_out; conv_k := k; conv_stride := s;
        conv_padding := p; conv_group := g; conv_has_bias := b |}.

Definition norm2d (w_in : Z) (eps mom : Q) : BatchNorm2d :=
  {| num_features := w_in; bn_eps_of := eps; bn_momentum := mom; final_bn := false |}.

(** [bn.final_bn = True] *)
Definition mark_final (bn : BatchNorm2d) : BatchNorm2d :=
  {| num_features := num_features bn; bn_eps_of := bn_eps_of bn;
     bn_momentum := bn_momentum bn; final_bn := true |}.

Definition pool2d (_w_in k stride : Z) : result Pool2d :=
  _ ← py_assert (k mod 2 =? 1) odd_kernel_msg;
  let padding := (k - 1) / 2 in
  Ok {| pool_k := k; pool_stride := stride; pool_padding := padding |}.

Definition gap2d (_w_in : Z) : AdaptiveAvgPool2d := ReduceMean_keep_dims.

Definition linear (w_in w_out : Z) (bias : bool) : Dense :=
  {| dense_in := w_in; dense_out := w_out; dense_has_bias := bias |}.

Definition activation : ReLU := nn_ReLU.

(** ** Complexity (cx) calculations *)

Record Cx := { h : Z; w : Z; flops : Z; params : Z; acts : Z }.

Definition floordiv (a b : Z) : result Z :=
  if b =? 0 then Raise ZeroDivisionError else Ok (a / b).

Definition conv2d_cx (cx : Cx) (w_in w_out k stride groups : Z) (bias : bool) : result Cx :=
  _ ← py_assert (k mod 2 =? 1) odd_kernel_msg;
  let '(h0, w0, flops0, params0, acts0) := (h cx, w cx, flops cx, params cx, acts cx) in
  hq ← floordiv (h0 - 1) stride;
  wq ← floordiv (w0 - 1) stride;
  let '(h1, w1) := (hq + 1, wq + 1) in
  fq ← floordiv (k * k * w_in * w_out * h1 * w1) groups;
  let flops1 := flops0 + (fq + (if bias then w_out * h1 * w1 else 0)) in
  pq ← floordiv (k * k * w_in * w_out) groups;
  let params1 := params0 + (pq + (if bias then w_out else 0)) in
  let acts1 := acts0 + w_out * h1 * w1 in
  Ok {| h := h1; w := w1; flops := flops1; params := params1; acts := acts1 |}.

Definition norm2d_cx (cx : Cx) (w_in : Z) : Cx :=
  let '(h0, w0, flops0, params0, acts0) := (h cx, w cx, flops cx, params cx, acts cx) in
  let params1 := params0 + 2 * w_in in
  {| h := h0; w := w0; flops := flops0; params := params1; acts := acts0 |}.

Definition pool2d_cx (cx : Cx) (w_in k stride : Z) : result Cx :=
  _ ← py_assert (k mod 2 =? 1) odd_kernel_msg;
  let '(h0, w0, flops0, params0, acts0) := (h cx, w cx, flops cx, params cx, acts cx) in
  hq ← floordiv (h0 - 1) stride;
  wq ← floordiv (w0 - 1) stride;
  let '(h1, w1) := (hq + 1, wq + 1) in
  let acts1 := acts0 + w_in * h1 * w1 in
  Ok {| h := h1; w := w1; flops := flops0; params := params0; acts := acts1 |}.

Definition gap2d_cx (cx : Cx) (_w_in : Z) : Cx :=
  let '(flops0, params0, acts0) := (flops cx, params cx, acts cx) in
  {| h := 1; w := 1; flops := flops0; params := params0; acts := acts0 |}.

Definition linear_cx (cx : Cx) (w_in w_out : Z) (bias : bool) (num_locations : Z) : Cx :=
  let '(h0, w0, flops0, params0, acts0) := (h cx, w cx, flops cx, params cx, acts cx) in
  let flops1 := flops0 + (w_in * w_out * num_locations + (if bias then w_out * num_locations else 0)) in
  let params1 := params0 + (w_in * w_out + (if bias then w_out else 0)) in
  let acts1 := acts0 + w_out * num_locations in
  {| h := h0; w := w0; flops := flops1; params := params1; acts := acts1 |}.

(** [cx["h"], cx["w"] = h, w] *)
Definition set_hw (cx : Cx) (h0 w0 : Z) : Cx :=
  {| h := h0; w := w0; flops := flops cx; params := params cx; acts := acts cx |}.

(** ** Shared blocks *)

(** The per-stage [params] dictionary [{"bot_mul": b, "group_w": g, "se_r": r}];
    AnyNet fills the first two with [None] when no list is supplied. *)
Record BlockParams := { bot_mul : option Q; group_w : option Z; se_r : Q }.

Record SE := {
  se_avg_pool : AdaptiveAvgPool2d;
  se_f_ex : Conv2d * ReLU * Conv2d * Sigmoid }.

Definition SE_init (w_in w_se : Z) : result SE :=
  let avg_pool := gap2d w_in in
  c1 ← conv2d w_in w_se 1 1 1 true;
  c2 ← conv2d w_se w_in 1 1 1 true;
  Ok {| se_avg_pool := avg_pool; se_f_ex := (c1, activation, c2, nn_Sigmoid) |}.

Definition SE_complexity (cx : Cx) (w_in w_se : Z) : result Cx :=
  let '(h0, w0) := (h cx, w cx) in
  let cx := gap2d_cx cx w_in in
  cx ← conv2d_cx cx w_in w_se 1 1 1 true;
  cx ← conv2d_cx cx w_se w_in 1 1 1 true;
  Ok (set_hw cx h0 w0).

(** ** Stems *)

Record ResStemCifar := { cifar_conv : Conv2d; cifar_bn : BatchNorm2d; cifar_af : ReLU }.

Definition ResStemCifar_init (w_in w_out : Z) (bn_eps bn_mom : Q) : result ResStemCifar :=
  conv ← conv2d w_in w_out 3 1 1 false;
  Ok {| cifar_conv := conv; cifar_bn := norm2d w_out bn_eps bn_mom; cifar_af := activation |}.

Definition ResStemCifar_complexity (cx : Cx) (w_in w_out : Z) : result Cx :=
  cx ← conv2d_cx cx w_in w_out 3 1 1 false;
  Ok (norm2d_cx cx w_out).

Record ResStem := {
  res_conv : Conv2d; res_bn : BatchNorm2d; res_af : ReLU; res_pool : Pool2d }.

Definition ResStem_init (w_in w_out : Z) (bn_eps bn_mom : Q) : result ResStem :=
  conv ← conv2d w_in w_out 7 2 1 false;
  let bn := norm2d w_out bn_eps bn_mom in
  pool ← pool2d w_out 3 2;
  Ok {| res_conv := conv; res_bn := bn; res_af := activation; res_pool := pool |}.

Definition ResStem_complexity (cx : Cx) (w_in w_out : Z) : result Cx :=
  cx ← conv2d_cx cx w_in w_out 7 2 1 false;
  let cx := norm2d_cx cx w_out in
  pool2d_cx cx w_out 3 2.

Record SimpleStem := { simple_conv : Conv2d; simple_bn : BatchNorm2d; simple_af : ReLU }.

Definition SimpleStem_init (w_in w_out : Z) (bn_eps bn_mom : Q) : result SimpleStem :=
  conv ← conv2d w_in w_out 3 2 1 false;
  Ok {| simple_conv := conv; simple_bn := norm2d w_out bn_eps bn_mom; simple_af := activation |}.

(** ** Blocks *)

Record VanillaBlock := {
  van_a : Conv2d; van_a_bn : BatchNorm2d; van_a_af : ReLU;
  van_b : Conv2d; van_b_bn : BatchNorm2d; van_b_af : ReLU }.

Definition VanillaBlock_init (w_in w_out stride : Z) (_params : BlockParams)
    (bn_eps bn_mom : Q) : result VanillaBlock :=
  a ← conv2d w_in w_out 3 stride 1 false;
  let a_bn := norm2d w_out bn_eps bn_mom in
  b ← conv2d w_out w_out 3 1 1 false;
  let b_bn := norm2d w_out bn_eps bn_mom in
  Ok {| van_a := a; van_a_bn := a_bn; van_a_af := activation;
        van_b := b; van_b_bn := b_bn; van_b_af := activation |}.

Record BasicTransform := {
  bt_a : Conv2d; bt_a_bn : BatchNorm2d; bt_a_af : ReLU;
  bt_b : Conv2d; bt_b_bn : BatchNorm2d }.

Definition BasicTransform_init (w_in w_out stride : Z) (_params : BlockParams)
    (bn_eps bn_mom : Q) : result BasicTransform :=
  a ← conv2d w_in w_out 3 stride 1 false;
  let a_bn := norm2d w_out bn_eps bn_mom in
  b ← conv2d w_out w_out 3 1 1 false;
  let b_bn := mark_final (norm2d w_out bn_eps bn_mom) in
  Ok {| bt_a := a; bt_a_bn := a_bn; bt_a_af := activation; bt_b := b; bt_b_bn := b_bn |}.

Record ResBasicBlock := {
  rb_proj : option Conv2d; rb_bn : option BatchNorm2d;
  rb_f : BasicTransform; rb_af : ReLU }.

Definition ResBasicBlock_init (w_in w_out stride : Z) (params : BlockParams)
    (bn_eps bn_mom : Q) : result ResBasicBlock :=
  pb ← (if negb (w_in =? w_out) || negb (stride =? 1) then
          proj ← conv2d w_in w_out 1 stride 1 false;
          Ok (Some proj, Some (norm2d w_out bn_eps bn_mom))
        else Ok (None, None));
  f ← BasicTransform_init w_in w_out stride params bn_eps bn_mom;
  Ok {| rb_proj := pb.1; rb_bn := pb.2; rb_f := f; rb_af := activation |}.

Record BottleneckTransform := {
  bo_a : Conv2d; bo_a_bn : BatchNorm2d; bo_a_af : ReLU;
  bo_b : Conv2d; bo_b_bn : BatchNorm2d; bo_b_af : ReLU;
  bo_se : option SE;
  bo_c : Conv2d; bo_c_bn : BatchNorm2d }.

(** [params["bot_mul"]] and [params["group_w"]] enter arithmetic; a [None]
    there is a type error. *)
Definition need {A} (o : option A) (what : string) : result A :=
  match o with
  | Some a => Ok a
  | None => Raise (TypeError what)
  end.

(** [w_se = int(round(w_in * params["se_r"]))] *)
Definition se_width (w_in : Z) (params : BlockParams) : Z :=
  Py.round (inject_Z w_in * se_r params).

Definition BottleneckTransform_init (w_in w_out stride : Z) (params : BlockParams)
    (bn_eps bn_mom : Q) : result BottleneckTransform :=
  b_mul ← need (bot_mul params) "unsupported operand type(s) for *: 'int' and 'NoneType'";
  let w_b := Py.round (inject_Z w_out * b_mul) in
  let w_se := se_width w_in params in
  g_w ← need (group_w params) "unsupported operand type(s) for //: 'int' and 'NoneType'";
  groups ← floordiv w_b g_w;
  a ← conv2d w_in w_b 1 1 1 false;
  let a_bn := norm2d w_b bn_eps bn_mom in
  b ← conv2d w_b w_b 3 stride groups false;
  let b_bn := norm2d w_b bn_eps bn_mom in
  se ← (if negb (w_se =? 0) then m ← SE_init w_b w_se; Ok (Some m) else Ok None);
  c ← conv2d w_b w_out 1 1 1 false;
  let c_bn := mark_final (norm2d w_out bn_eps bn_mom) in
  Ok {| bo_a := a; bo_a_bn := a_bn; bo_a_af := activation;
        bo_b := b; bo_b_bn := b_bn; bo_b_af := activation;
        bo_se := se; bo_c := c; bo_c_bn := c_bn |}.

Record ResBottleneckBlock := {
  rbo_proj : option Conv2d; rbo_bn : option BatchNorm2d;
  rbo_f : BottleneckTransform; rbo_af : ReLU }.

Definition ResBottleneckBlock_init (w_in w_out stride : Z) (params : BlockParams)
    (bn_eps bn_mom : Q) : result ResBottleneckBlock :=
  pb ← (if negb (w_in =? w_out) || negb (stride =? 1) then
          proj ← conv2d w_in w_out 1 stride 1 false;
          Ok (Some proj, Some (norm2d w_out bn_eps bn_mom))
        else Ok (None, None));
  f ← BottleneckTransform_init w_in w_out stride params bn_eps bn_mom;
  Ok {| rbo_proj := pb.1; rbo_bn := pb.2; rbo_f := f; rbo_af := activation |}.

Record ResBottleneckLinearBlock := { rl_has_skip : bool; rl_f : BottleneckTransform }.

Definition ResBottleneckLinearBlock_init (w_in w_out stride : Z) (params : BlockParams)
    (bn_eps bn_mom : Q) : result ResBottleneckLinearBlock :=
  let has_skip := (w_in =? w_out) && (stride =? 1) in
  f ← BottleneckTransform_init w_in w_out stride params bn_eps bn_mom;
  Ok {| rl_has_skip := has_skip; rl_f := f |}.

(** ** Forward passes

    [construct] is written against the operators of the tensor library,
    which the network only calls. *)

Class TensorOps (T : Type) := {
  run_conv : Conv2d -> T -> T;
  run_bn : BatchNorm2d -> T -> T;
  run_relu : ReLU -> T -> T;
  run_sigmoid : Sigmoid -> T -> T;
  run_pool : Pool2d -> T -> T;
  run_gap : AdaptiveAvgPool2d -> T -> T;
  run_dense : Dense -> T -> T;
  run_view : T -> T;
  t_add : T -> T -> T;
  t_mul : T -> T -> T }.

Section Construct.
Context {T : Type} `{TensorOps T}.

Definition SE_construct (m : SE) (x : T) : T :=
  let '(c1, af, c2, sg) := se_f_ex m in
  t_mul x (run_sigmoid sg (run_conv c2 (run_relu af (run_conv c1 (run_gap (se_avg_pool m) x))))).

Definition ResStemCifar_construct (m : ResStemCifar) (x : T) : T :=
  let x := run_conv (cifar_conv m) x in
  let x := run_bn (cifar_bn m) x in
  run_relu (cifar_af m) x.

Definition ResStem_construct (m : ResStem) (x : T) : T :=
  let x := run_conv (res_conv m) x in
  let x := run_bn (res_bn m) x in
  let x := run_relu (res_af m) x in
  run_pool (res_pool m) x.

Definition SimpleStem_construct (m : SimpleStem) (x : T) : T :=
  let x := run_conv (simple_conv m) x in
  let x := run_bn (simple_bn m) x in
  run_relu (simple_af m) x.

Definition VanillaBlock_construct (m : VanillaBlock) (x : T) : T :=
  let x := run_conv (van_a m) x in
  let x := run_bn (van_a_bn m) x in
  let x := run_relu (van_a_af m) x in
  let x := run_conv (van_b m) x in
  let x := run_bn (van_b_bn m) x in
  run_relu (van_b_af m) x.

Definition BasicTransform_construct (m : BasicTransform) (x : T) : T :=
  let x := run_conv (bt_a m) x in
  let x := run_bn (bt_a_bn m) x in
  let x := run_relu (bt_a_af m) x in
  let x := run_conv (bt_b m) x in
  run_bn (bt_b_bn m) x.

(** [self.bn(self.proj(x)) if self.proj else x] *)
Definition shortcut (proj : option Conv2d) (bn : option BatchNorm2d) (x : T) : result T :=
  match proj with
  | Some p =>
      match bn with
      | Some n => Ok (run_bn n (run_conv p x))
      | None => Raise (TypeError "'NoneType' object is not callable")
      end
  | None => Ok x
  end.

Definition ResBasicBlock_construct (m : ResBasicBlock) (x : T) : result T :=
  x_p ← shortcut (rb_proj m) (rb_bn m) x;
  Ok (run_relu (rb_af m) (t_add x_p (BasicTransform_construct (rb_f m) x))).

Definition BottleneckTransform_construct (m : BottleneckTransform) (x : T) : T :=
  let x := run_conv (bo_a m) x in
  let x := run_bn (bo_a_bn m) x in
  let x := run_relu (bo_a_af m) x in
  let x := run_conv (bo_b m) x in
  let x := run_bn (bo_b_bn m) x in
  let x := run_relu (bo_b_af m) x in
  let x := match bo_se m with Some se => SE_construct se x | None => x end in
  let x := run_conv (bo_c m) x in
  run_bn (bo_c_bn m) x.

Definition ResBottleneckBlock_construct (m : ResBottleneckBlock) (x : T) : result T :=
  x_p ← shortcut (rbo_proj m) (rbo_bn m) x;
  Ok (run_relu (rbo_af m) (t_add x_p (BottleneckTransform_construct (rbo_f m) x))).

Definition ResBottleneckLinearBlock_construct (m : ResBottleneckLinearBlock) (x : T) : T :=
  if rl_has_skip m then t_add x (BottleneckTransform_construct (rl_f m) x)
  else BottleneckTransform_construct (rl_f m) x.

End Construct.

(** ** Vocabulary *)

Inductive Stem :=
| Stem_cifar (m : ResStemCifar)
| Stem_in (m : ResStem)
| Stem_simple (m : SimpleStem).

Inductive Block :=
| Block_vanilla (m : VanillaBlock)
| Block_basic (m : ResBasicBlock)
| Block_bottleneck (m : ResBottleneckBlock)
| Block_linear (m : ResBottleneckLinearBlock).

(** A class object as the assembler uses it: it can be called to build an
    instance, and it may carry a static [complexity] attribute. *)
Record StemClass := {
  stem_name : string;
  stem_new : Z -> Z -> Q -> Q -> result Stem;
  stem_complexity : option (Cx -> Z -> Z -> result Cx) }.

Record BlockClass := {
  block_name : string;
  block_new : Z -> Z -> Z -> BlockParams -> Q -> Q -> result Block;
  block_complexity : option (Cx -> Z -> Z -> Z -> BlockParams -> result Cx) }.

Definition lift {A B} (f : A -> B) (r : result A) : result B := a ← r; Ok (f a).

Definition ResStemCifar_class : StemClass :=
  {| stem_name := "ResStemCifar";
     stem_new := fun w_in w_out e m => lift Stem_cifar (ResStemCifar_init w_in w_out e m);
     stem_complexity := Some ResStemCifar_complexity |}.

Definition ResStem_class : StemClass :=
  {| stem_name := "ResStem";
     stem_new := fun w_in w_out e m => lift Stem_in (ResStem_init w_in w_out e m);
     stem_complexity := Some ResStem_complexity |}.

Definition SimpleStem_class : StemClass :=
  {| stem_name := "SimpleStem";
     stem_new := fun w_in w_out e m => lift Stem_simple (SimpleStem_init w_in w_out e m);
     stem_complexity := None |}.

Definition VanillaBlock_class : BlockClass :=
  {| block_name := "VanillaBlock";
     block_new := fun w_in w_out s p e m => lift Block_vanilla (VanillaBlock_init w_in w_out s p e m);
     block_complexity := None |}.

Definition ResBasicBlock_class : BlockClass :=
  {| block_name := "ResBasicBlock";
     block_new := fun w_in w_out s p e m => lift Block_basic (ResBasicBlock_init w_in w_out s p e m);
     block_complexity := None |}.

Definition ResBottleneckBlock_class : BlockClass :=
  {| block_name := "ResBottleneckBlock";
     block_new := fun w_in w_out s p e m =>
       lift Block_bottleneck (ResBottleneckBlock_init w_in w_out s p e m);
     block_complexity := None |}.

Definition ResBottleneckLinearBlock_class : BlockClass :=
  {| block_name := "ResBottleneckLinearBlock";
     block_new := fun w_in w_out s p e m =>
       lift Block_linear (ResBottleneckLinearBlock_init w_in w_out s p e m);
     block_complexity := None |}.

Definition stem_funs : gmap string StemClass :=
  {[ "res_stem_cifar" := ResStemCifar_class;
     "res_stem_in" := ResStem_class;
     "simple_stem_in" := SimpleStem_class ]}.

Definition block_funs : gmap string BlockClass :=
  {[ "vanilla_block" := VanillaBlock_class;
     "res_basic_block" := ResBasicBlock_class;
     "res_bottleneck_block" := ResBottleneckBlock_class;
     "res_bottleneck_linear_block" := ResBottleneckLinearBlock_class ]}.

(** [err_str.format(tag)] for the two messages of the vocabulary. *)
Definition not_supported (what tag : string) : string :=
  what +:+ " type '" +:+ tag +:+ "' not supported".

(** The spec's names for the two lookup failures. *)
Definition UnknownStemKind (tag : string) : exn := AssertionError (not_supported "Stem" tag).
Definition UnknownBlockKind (tag : string) : exn := AssertionError (not_supported "Block" tag).

Definition get_stem_fun (stem_type : string) : result StemClass :=
  _ ← py_assert (bool_decide (stem_type ∈ dom stem_funs)) (not_supported "Stem" stem_type);
  match stem_funs !! stem_type with
  | Some f => Ok f
  | None => Raise (KeyError stem_type)
  end.

Definition get_block_fun (block_type : string) : result BlockClass :=
  _ ← py_assert (bool_decide (block_type ∈ dom block_funs)) (not_supported "Block" block_type);
  match block_funs !! block_type with
  | Some f => Ok f
  | None => Raise (KeyError block_type)
  end.

(** ** Stages, head and networks *)

Record AnyStage := { blocks : list Block }.

(** The body of [for i in range(d)] in [AnyStage.__init__], with the
    loop-carried [stride, w_in = 1, w_out]. *)
Fixpoint AnyStage_blocks (n : nat) (w_in w_out stride : Z) (block_fun : BlockClass)
    (params : BlockParams) (bn_eps bn_mom : Q) : result (list Block) :=
  match n with
  | O => Ok []
  | S n' =>
      block ← block_new block_fun w_in w_out stride params bn_eps bn_mom;
      rest ← AnyStage_blocks n' w_out w_out 1 block_fun params bn_eps bn_mom;
      Ok (block :: rest)
  end.

Definition AnyStage_init (w_in w_out stride d : Z) (block_fun : BlockClass)
    (params : BlockParams) (bn_eps bn_mom : Q) : result AnyStage :=
  bl ← AnyStage_blocks (Z.to_nat d) w_in w_out stride block_fun params bn_eps bn_mom;
  Ok {| blocks := bl |}.

(** [block_fun.complexity]: attribute lookup on the class object. *)
Definition getattr_complexity (block_fun : BlockClass)
  : result (Cx -> Z -> Z -> Z -> BlockParams -> result Cx) :=
  match block_complexity block_fun with
  | Some f => Ok f
  | None => Raise (AttributeError
      ("type object '" +:+ block_name block_fun +:+ "' has no attribute 'complexity'"))
  end.

Fixpoint AnyStage_complexity_loop (n : nat) (cx : Cx) (w_in w_out stride : Z)
    (block_fun : BlockClass) (params : BlockParams) : result Cx :=
  match n with
  | O => Ok cx
  | S n' =>
      f ← getattr_complexity block_fun;
      cx ← f cx w_in w_out stride params;
      AnyStage_complexity_loop n' cx w_out w_out 1 block_fun params
  end.

Definition AnyStage_complexity (cx : Cx) (w_in w_out stride d : Z)
    (block_fun : BlockClass) (params : BlockParams) : result Cx :=
  AnyStage_complexity_loop (Z.to_nat d) cx w_in w_out stride block_fun params.

Record AnyHead := {
  head_width : Z;
  head_conv : option Conv2d; head_bn : option BatchNorm2d; head_af : option ReLU;
  head_avg_pool : AdaptiveAvgPool2d;
  head_fc : Dense }.

Definition AnyHead_init (w_in head_w num_classes : Z) (bn_eps bn_mom : Q) : result AnyHead :=
  if 0 <? head_w then
    conv ← conv2d w_in head_w 1 1 1 false;
    let bn := norm2d head_w bn_eps bn_mom in
    let w_in := head_w in
    Ok {| head_width := head_w; head_conv := Some conv; head_bn := Some bn;
          head_af := Some activation; head_avg_pool := gap2d w_in;
          head_fc := linear w_in num_classes true |}
  else
    Ok {| head_width := head_w; head_conv := None; head_bn := None; head_af := None;
          head_avg_pool := gap2d w_in; head_fc := linear w_in num_classes true |}.

Definition AnyHead_complexity (cx : Cx) (w_in head_w num_classes : Z) : result Cx :=
  r ← (if 0 <? head_w then
         cx ← conv2d_cx cx w_in head_w 1 1 1 false;
         Ok (norm2d_cx cx head_w, head_w)
       else Ok (cx, w_in));
  let '(cx, w_in) := r in
  let cx := gap2d_cx cx w_in in
  Ok (linear_cx cx w_in num_classes true 1).

Record AnyNetParams := {
  p_stem_type : string; p_stem_w : Z; p_block_type : string;
  p_depths : list Z; p_widths : list Z; p_strides : list Z;
  p_bot_muls : list (option Q); p_group_ws : list (option Z);
  p_head_w : Z; p_se_r : Q; p_num_classes : Z }.

(** [xs if xs else nones] *)
Definition or_nones {A B} (xs : list A) (depths : list B) : list (option A) :=
  match xs with
  | [] => (fun _ => None) <$> depths
  | _ => Some <$> xs
  end.

Definition anynet_get_params (depths : list Z) (stem_type : string) (stem_w : Z)
    (block_type : string) (widths strides : list Z) (bot_muls : list Q)
    (group_ws : list Z) (head_w num_classes : Z) : AnyNetParams :=
  {| p_stem_type := stem_type; p_stem_w := stem_w; p_block_type := block_type;
     p_depths := depths; p_widths := widths; p_strides := strides;
     p_bot_muls := or_nones bot_muls depths; p_group_ws := or_nones group_ws depths;
     p_head_w := head_w; p_se_r := 0%Q; p_num_classes := num_classes |}.

Record AnyNet := { stem : Stem; stages : list AnyStage; head : AnyHead }.

(** The rows of [zip] over [p[k] for k in keys]. *)
Definition stage_rows (p : AnyNetParams) : list (Z * Z * Z * option Q * option Z) :=
  zip (zip (zip (zip (p_depths p) (p_widths p)) (p_strides p)) (p_bot_muls p)) (p_group_ws p).

(** The stage loop of [AnyNet.__init__]; it returns the stages and the last
    value of [prev_w]. *)
Fixpoint AnyNet_stages (rows : list (Z * Z * Z * option Q * option Z)) (prev_w : Z)
    (block_fun : BlockClass) (se : Q) (bn_eps bn_mom : Q) : result (list AnyStage * Z) :=
  match rows with
  | [] => Ok ([], prev_w)
  | (d, w_, s, b, g) :: rows' =>
      let params := {| bot_mul := b; group_w := g; se_r := se |} in
      stage ← AnyStage_init prev_w w_ s d block_fun params bn_eps bn_mom;
      r ← AnyNet_stages rows' w_ block_fun se bn_eps bn_mom;
      Ok (stage :: r.1, r.2)
  end.

Definition AnyNet_init (depths : list Z) (stem_type : string) (stem_w : Z)
    (block_type : string) (widths strides : list Z) (bot_muls : list Q)
    (group_ws : list Z) (head_w num_classes : Z) (bn_eps bn_mom : Q) : result AnyNet :=
  let p := anynet_get_params depths stem_type stem_w block_type widths strides
             bot_muls group_ws head_w num_classes in
  stem_fun ← get_stem_fun (p_stem_type p);
  block_fun ← get_block_fun (p_block_type p);
  st ← stem_new stem_fun 3 (p_stem_w p) bn_eps bn_mom;
  let prev_w := p_stem_w p in
  r ← AnyNet_stages (stage_rows p) prev_w block_fun (p_se_r p) bn_eps bn_mom;
  let '(sts, prev_w) := r in
  hd ← AnyHead_init prev_w (p_head_w p) (p_num_classes p) bn_eps bn_mom;
  Ok {| stem := st; stages := sts; head := hd |}.

Record RegNetParams := {
  r_stem_type : string; r_stem_w : Z; r_block_type : string;
  r_depths : list Z; r_widths : list Z; r_strides : list Z;
  r_bot_muls : list Q; r_group_ws : list Z;
  r_head_w : Z; r_se_r : Q; r_num_classes : Z }.

Section RegNet.
Variable round_log : Q -> Q -> Z.

Definition regnet_get_params (w_a : Q) (w_0 : Z) (w_m : Q) (d stride : Z) (b_mul : Q)
    (g_w : Z) (stem_type : string) (stem_w : Z) (block_type : string)
    (head_w num_classes : Z) : result RegNetParams :=
  r ← generate_regnet_full round_log w_a w_0 w_m d stride b_mul g_w;
  let '(ws, ds, ss, bs, gs) := r in
  Ok {| r_stem_type := stem_type; r_stem_w := stem_w; r_block_type := block_type;
        r_depths := ds; r_widths := ws; r_strides := ss;
        r_bot_muls := bs; r_group_ws := gs;
        r_head_w := head_w; r_se_r := 0%Q; r_num_classes := num_classes |}.

(** [RegNet.__init__] hands the generated lists to [AnyNet.__init__]. *)
Definition RegNet_init (w_a : Q) (w_0 : Z) (w_m : Q) (d stride : Z) (b_mul : Q)
    (g_w : Z) (stem_type : string) (stem_w : Z) (block_type : string)
    (head_w num_classes : Z) (bn_eps bn_mom : Q) : result AnyNet :=
  params ← regnet_get_params w_a w_0 w_m d stride b_mul g_w stem_type stem_w
             block_type head_w num_classes;
  AnyNet_init (r_depths params) (r_stem_type params) (r_stem_w params)
    (r_block_type params) (r_widths params) (r_strides params) (r_bot_muls params)
    (r_group_ws params) (r_head_w params) (r_num_classes params) bn_eps bn_mom.

(** [RegNet(36.44, 24, 2.49, 13, 2, 1.0, 8, 'simple_stem_in', 32,
    'res_bottleneck_block', 0, 1000, 1e-5, 0.9)] *)
Definition regnet200mf (pretrained : bool) (num_classes in_channels : Z) : result AnyNet :=
  RegNet_init (3644 # 100) 24 (249 # 100) 13 2 1 8 "simple_stem_in" 32
    "res_bottleneck_block" 0 1000 (1 # 100000) (9 # 10).

End RegNet.

(** ** Forward passes of the assembled structure *)

Section ConstructNet.
Context {T : Type} `{TensorOps T}.

Definition Stem_construct (m : Stem) (x : T) : T :=
  match m with
  | Stem_cifar s => ResStemCifar_construct s x
  | Stem_in s => ResStem_construct s x
  | Stem_simple s => SimpleStem_construct s x
  end.

Definition Block_construct (m : Block) (x : T) : result T :=
  match m with
  | Block_vanilla b => Ok (VanillaBlock_construct b x)
  | Block_basic b => ResBasicBlock_construct b x
  | Block_bottleneck b => ResBottleneckBlock_construct b x
  | Block_linear b => Ok (ResBottleneckLinearBlock_construct b x)
  end.

(** [for block in self.blocks: x = block(x)] *)
Fixpoint run_blocks (bl : list Block) (x : T) : result T :=
  match bl with
  | [] => Ok x
  | b :: rest => x ← Block_construct b x; run_blocks rest x
  end.

Definition AnyStage_construct (m : AnyStage) (x : T) : result T := run_blocks (blocks m) x.

Fixpoint run_stages (sts : list AnyStage) (x : T) : result T :=
  match sts with
  | [] => Ok x
  | s :: rest => x ← AnyStage_construct s x; run_stages rest x
  end.

(** [AnyHead.construct] up to the pooled feature map and then through the
    classifier. *)
Definition AnyHead_features (m : AnyHead) (x : T) : result T :=
  x ← (if 0 <? head_width m then
         match head_conv m, head_bn m, head_af m with
         | Some c, Some n, Some a => Ok (run_relu a (run_bn n (run_conv c x)))
         | _, _, _ => Raise (AttributeError "conv")
         end
       else Ok x);
  Ok (run_gap (head_avg_pool m) x).

Definition AnyHead_construct (m : AnyHead) (x : T) : result T :=
  x ← AnyHead_features m x;
  let x := run_view x in
  Ok (run_dense (head_fc m) x).

Definition AnyNet_construct (m : AnyNet) (x : T) : result T :=
  let x := Stem_construct (stem m) x in
  x ← run_stages (stages m) x;
  AnyHead_construct (head m) x.

End ConstructNet.

(** ** Shapes

    The shape contract of the tensor operators: a feature map is
    [(channels, height, width)].  A convolution in [pad] mode and a padded
    [valid] max-pool both map a side [n] to [(n + 2p - k) // s + 1]; the
    elementwise operators keep the shape of the broadcast result. *)

Definition Shape : Type := Z * Z * Z.

Definition window (n k s p : Z) : Z := (n + 2 * p - k) / s + 1.

#[global] Instance ShapeOps : TensorOps Shape := {
  run_conv c x :=
    let '(_, hh, ww) := x in
    (conv_out c,
     window hh (conv_k c) (conv_stride c) (conv_padding c),
     window ww (conv_k c) (conv_stride c) (conv_padding c));
  run_bn _ x := x;
  run_relu _ x := x;
  run_sigmoid _ x := x;
  run_pool p x :=
    let '(ch, hh, ww) := x in
    (ch,
     window hh (pool_k p) (pool_stride p) (pool_padding p),
     window ww (pool_k p) (pool_stride p) (pool_padding p));
  run_gap _ x := let '(ch, _, _) := x in (ch, 1, 1);
  run_dense d x := let '(_, hh, ww) := x in (dense_out d, hh, ww);
  run_view x := x;
  t_add x y := let '(c1, h1, w1) := x in let '(c2, h2, w2) := y in
               (Z.max c1 c2, Z.max h1 h2, Z.max w1 w2);
  t_mul x y := let '(c1, h1, w1) := x in let '(c2, h2, w2) := y in
               (Z.max c1 c2, Z.max h1 h2, Z.max w1 w2) }.

Definition hw_of (x : Shape) : Z * Z := (x.1.2, x.2).
Definition cx_hw (cx : Cx) : Z * Z := (h cx, w cx).

(** ** Cost of a built bottleneck transform *)

(** Modelled from the spec: the source gives no cost rule for the block
    variants (only the stems, the head, the stage loop and SE carry one).
    Section 4.5 of the spec applies the matching cost rule to each primitive
    of the built node in construction order; the rules themselves
    ([conv2d_cx], [norm2d_cx], [SE.complexity]) are the source's. *)
Definition Conv2d_cx (cx : Cx) (c : Conv2d) : result Cx :=
  conv2d_cx cx (conv_in c) (conv_out c) (conv_k c) (conv_stride c) (conv_group c)
    (conv_has_bias c).

(** Modelled from the spec: the normalize rule applied to a built
    normalization layer (no per-block rule exists in the source). *)
Definition BatchNorm2d_cx (cx : Cx) (n : BatchNorm2d) : Cx := norm2d_cx cx (num_features n).

(** Modelled from the spec: [SE.complexity] applied to a built gate, with the
    widths the gate was built with. *)
Definition SE_cx (cx : Cx) (m : SE) : result Cx :=
  let '(c1, _, _, _) := se_f_ex m in SE_complexity cx (conv_in c1) (conv_out c1).

(** Modelled from the spec: the cost of a built bottleneck transform, one
    rule per primitive in construction order; the source has no
    [BottleneckTransform.complexity]. *)
Definition BottleneckTransform_cx (cx : Cx) (m : BottleneckTransform) : result Cx :=
  cx ← Conv2d_cx cx (bo_a m);
  let cx := BatchNorm2d_cx cx (bo_a_bn m) in
  cx ← Conv2d_cx cx (bo_b m);
  let cx := BatchNorm2d_cx cx (bo_b_bn m) in
  cx ← match bo_se m with Some se => SE_cx cx se | None => Ok cx end;
  cx ← Conv2d_cx cx (bo_c m);
  Ok (BatchNorm2d_cx cx (bo_c_bn m)).

(** ** The spec's wording of two steps, for comparison with the source *)

(** Spec 4.2, step 1: [v = max(1, round(width * ratio))]. *)
Definition bottleneck_widths_spec (ws : list Z) (bs : list Q) : list Z :=
  zip_with (fun w b => Z.max 1 (Py.round (inject_Z w * b))) ws bs.

(** Spec 4.4: the squeeze-excite gate is present iff
    [squeeze_excite_ratio > 0]. *)
Definition se_present_spec (params : BlockParams) : Prop := (0 < se_r params)%Q.

(** The precondition of the adjustment as the spec words it. *)
Definition adjust_precondition (ws : list Z) (bs : list Q) (gs : list Z) : Prop :=
  length ws = length bs /\ length bs = length gs /\
  all_positive ws bs gs = true /\ ratios_admissible bs = true.

(** The learned projection of a residual block: a 1x1 convolution with the
    block's stride, followed by normalization. *)
Definition projection (w_in w_out stride : Z) : Conv2d :=
  {| conv_in := w_in; conv_out := w_out; conv_k := 1; conv_stride := stride;
     conv_padding := 0; conv_group := 1; conv_has_bias := false |}.

(** The shortcut rule of the residual blocks: projection and normalization
    exactly when the widths differ or the stride is not 1. *)
Definition shortcut_rule (w_in w_out stride : Z) (bn_eps bn_mom : Q)
    (proj : option Conv2d) (bn : option BatchNorm2d) : Prop :=
  (is_Some proj <-> w_in <> w_out \/ stride <> 1) /\
  (w_in <> w_out \/ stride <> 1 ->
     proj = Some (projection w_in w_out stride) /\ bn = Some (norm2d w_out bn_eps bn_mom)) /\
  (w_in = w_out /\ stride = 1 -> proj = None /\ bn = None).

(** [shortcut(x)]: the projected and normalized input, or the input itself. *)
Definition shortcut_value {T} `{TensorOps T} (proj : option Conv2d)
    (bn : option BatchNorm2d) (x : T) : T :=
  match proj, bn with
  | Some p, Some n => run_bn n (run_conv p x)
  | _, _ => x
  end.

(** The parameters a convolution layer contributes under [conv2d_cx]. *)
Definition conv_params (c : Conv2d) : Z :=
  conv_k c * conv_k c * conv_in c * conv_out c / conv_group c
  + (if conv_has_bias c then conv_out c else 0).

(** [sum(ds)] *)
Definition total (counts : list Z) : Z := foldr Z.add 0 counts.

(** A ratio that is an integer or the reciprocal of an integer. *)
Definition unit_ratio (b : Q) : Prop :=
  exists n : Z, 0 < n /\ (b == inject_Z n \/ b == 1 / inject_Z n)%Q.

(** ** The adjustment seen one stage at a time *)

Definition stage_v (w : Z) (b : Q) : Z := Py.int (Py.max1 (inject_Z w * b)).
Definition stage_g (w : Z) (b : Q) (g : Z) : Z := Z.min g (stage_v w b).
Definition stage_m (w : Z) (b : Q) (g : Z) : Z :=
  if Py.ltb 1 b then Z.lcm (stage_g w b g) (Py.int b) else stage_g w b g.
Definition stage_v' (w : Z) (b : Q) (g : Z) : Z :=
  Z.max (stage_m w b g) (Py.round (Py.truediv (stage_v w b) (stage_m w b g)) * stage_m w b g).
Definition stage_w' (w : Z) (b : Q) (g : Z) : Z := Py.int (inject_Z (stage_v' w b g) / b).

Definition map3 {A} (f : Z -> Q -> Z -> A) (ws : list Z) (bs : list Q) (gs : list Z) : list A :=
  (fun '(w, b, g) => f w b g) <$> zip3 ws bs gs.

(** ** Predicates used by the further properties *)

(** A stage that meets the entry assertions and passes the final check. *)
Definition stage_checked : Z * Q * Z -> Prop :=
  fun '(w, b, g) =>
    (0 < b)%Q /\ 0 < g /\ admissible b = true /\
    compatible (stage_w' w b g) b (stage_g w b g) = true.

(** A stage the bottleneck transform accepts, with an exact bottleneck width
    that is a whole number of groups. *)
Definition buildable (w : Z) (b : Q) (g : Z) : Prop :=
  forall w_in stride se bn_eps bn_mom,
    exists m,
      BottleneckTransform_init w_in w stride
        {| bot_mul := Some b; group_w := Some g; se_r := se |} bn_eps bn_mom = Ok m /\
      (inject_Z (conv_out (bo_a m)) == inject_Z w * b)%Q /\
      conv_group (bo_b m) * g = conv_out (bo_a m) /\
      1 <= conv_group (bo_b m).

(** The parameters the quantizer accepts. *)
Definition design_space_ok (w_a : Q) (w_0 : Z) (w_m : Q) (q : Z) : Prop :=
  (0 <= w_a)%Q /\ 0 < w_0 /\ (1 < w_m)%Q /\ q <> 0 /\ w_0 mod q = 0.

(** A block whose shortcut is the identity. *)
Definition identity_shortcut (b : Block) : Prop :=
  match b with
  | Block_vanilla _ => True
  | Block_basic m => rb_proj m = None /\ rb_bn m = None
  | Block_bottleneck m => rbo_proj m = None /\ rbo_bn m = None
  | Block_linear m => rl_has_skip m = true
  end.

(** A stage row whose blocks can be constructed from any input width and
    stride. *)
Definition row_builds (cls : BlockClass) (se bn_eps bn_mom : Q)
    (row : Z * Z * Z * option Q * option Z) : Prop :=
  let '(_, w_, _, b, g) := row in
  forall w_in stride,
    exists blk,
      block_new cls w_in w_ stride {| bot_mul := b; group_w := g; se_r := se |} bn_eps bn_mom
      = Ok blk.

(** A block whose forward pass returns on every input. *)
Definition runs {T : Type} `{TensorOps T} (b : Block) : Prop :=
  forall x : T, exists y, Block_construct b x = Ok y.

(** * Properties *)

(** ** Python numerics *)

Lemma ltb_lt x y : Py.ltb x y = true <-> (x < y)%Q.
Proof.
  unfold Py.ltb. rewrite negb_true_iff, <- not_true_iff_false, Qle_bool_iff.
  split; [apply Qnot_le_lt | apply Qlt_not_le].
Qed.

Lemma ltb_ge x y : Py.ltb x y = false <-> (y <= x)%Q.
Proof.
  unfold Py.ltb. rewrite negb_false_iff. apply Qle_bool_iff.
Qed.

Lemma int_floor x : (0 <= x)%Q -> Py.int x = Qfloor x.
Proof.
  destruct x as [n d]. unfold Qle, Py.int, Qfloor. simpl. intros Hn.
  apply Z.quot_div_nonneg; lia.
Qed.

Lemma int_inject z : Py.int (inject_Z z) = z.
Proof. unfold Py.int. simpl. apply Z.quot_1_r. Qed.

#[global] Instance round_proper : Proper (Qeq ==> eq) Py.round.
Proof.
  intros x y Hxy. unfold Py.round.
  rewrite (Qfloor_comp _ _ Hxy).
  assert (Hc : ((x - inject_Z (Qfloor y)) ?= 1 # 2)%Q = ((y - inject_Z (Qfloor y)) ?= 1 # 2)%Q).
  { apply Qcompare_comp; [rewrite Hxy|]; reflexivity. }
  rewrite Hc. reflexivity.
Qed.

Lemma round_inject z : Py.round (inject_Z z) = z.
Proof.
  unfold Py.round. rewrite Qfloor_Z.
  destruct (Qcompare_spec (inject_Z z - inject_Z z) (1 # 2)) as [He|Hl|Hg];
    [exfalso; lra | reflexivity | exfalso; lra].
Qed.

Lemma round_bounds x : (inject_Z (Py.round x) - (1 # 2) <= x <= inject_Z (Py.round x) + (1 # 2))%Q.
Proof.
  unfold Py.round. cbv zeta.
  pose proof (Qfloor_le x) as Hlo. pose proof (Qlt_floor x) as Hhi.
  rewrite inject_Z_plus in Hhi. change (inject_Z 1) with 1%Q in Hhi.
  destruct (Qcompare_spec (x - inject_Z (Qfloor x)) (1 # 2)) as [He|Hl|Hg]; cbv iota.
  - destruct (Z.even (Qfloor x));
      [|rewrite inject_Z_plus; change (inject_Z 1) with 1%Q]; split; lra.
  - split; lra.
  - rewrite inject_Z_plus. change (inject_Z 1) with 1%Q. split; lra.
Qed.

Lemma floor_le_round x : Qfloor x <= Py.round x <= Qfloor x + 1.
Proof.
  unfold Py.round.
  destruct (_ ?= _)%Q; [destruct (Z.even _)| |]; lia.
Qed.

Lemma int_of_eq x z : (x == inject_Z z)%Q -> 0 <= z -> Py.int x = z.
Proof.
  intros Hx Hz. rewrite int_floor.
  - rewrite Hx. apply Qfloor_Z.
  - rewrite Hx. change 0%Q with (inject_Z 0). rewrite <- Zle_Qle. exact Hz.
Qed.

Lemma int_max1 x : Py.int (Py.max1 x) = Z.max 1 (Qfloor x).
Proof.
  unfold Py.max1. destruct (Py.ltb 1 x) eqn:Hx.
  - apply ltb_lt in Hx. rewrite int_floor by lra.
    assert (1 <= Qfloor x); [|lia].
    rewrite <- (Qfloor_Z 1). apply Qfloor_resp_le. apply Qlt_le_weak. exact Hx.
  - apply ltb_ge in Hx. change (Py.int 1%Q) with 1.
    assert (Qfloor x <= 1); [|lia].
    rewrite <- (Qfloor_Z 1). apply Qfloor_resp_le. exact Hx.
Qed.

Lemma fmod_zero_of_multiple x v g :
  (x == inject_Z v)%Q -> 0 < g -> (g | v) -> (Py.fmod x g == 0)%Q.
Proof.
  intros Hx Hg [s Hs]. unfold Py.fmod.
  assert (Hq : (x / inject_Z g == inject_Z s)%Q).
  { rewrite Hx, Hs, inject_Z_mult. field.
    change 0%Q with (inject_Z 0). rewrite inject_Z_injective. lia. }
  rewrite Hq, Qfloor_Z, Hx, Hs, inject_Z_mult. ring.
Qed.

Lemma integral_of_fmod b : (0 <= b)%Q -> (Py.fmod b 1 == 0)%Q -> (b == inject_Z (Py.int b))%Q.
Proof.
  intros Hb H0. rewrite int_floor by exact Hb. unfold Py.fmod in H0.
  change (inject_Z 1) with 1%Q in H0.
  assert (Hd : (b / 1 == b)%Q) by (field).
  rewrite Hd in H0. lra.
Qed.

(** ** Facts about one stage *)

Section Stage.
Variables (w : Z) (b : Q) (g : Z).
Hypothesis Hb : (0 < b)%Q.
Hypothesis Hg : 0 < g.

Lemma stage_v_pos : 1 <= stage_v w b.
Proof. unfold stage_v. rewrite int_max1. lia. Qed.

Lemma stage_g_bounds : 1 <= stage_g w b g <= g.
Proof. unfold stage_g. pose proof stage_v_pos. lia. Qed.

Lemma stage_m_pos : 1 <= stage_m w b g.
Proof.
  pose proof stage_g_bounds as Hgb. unfold stage_m.
  destruct (Py.ltb 1 b) eqn:H1; [|lia].
  apply ltb_lt in H1.
  assert (Hn : 1 <= Py.int b).
  { rewrite int_floor by lra. rewrite <- (Qfloor_Z 1). apply Qfloor_resp_le.
    change (inject_Z 1) with 1%Q. lra. }
  pose proof (Z.lcm_nonneg (stage_g w b g) (Py.int b)) as Hnn.
  assert (Z.lcm (stage_g w b g) (Py.int b) <> 0); [|lia].
  rewrite Z.lcm_eq_0. lia.
Qed.

Lemma stage_g_divides_m : (stage_g w b g | stage_m w b g).
Proof.
  unfold stage_m. destruct (Py.ltb 1 b); [apply Z.divide_lcm_l | reflexivity].
Qed.

Lemma stage_m_divides_v' : (stage_m w b g | stage_v' w b g).
Proof.
  unfold stage_v'.
  destruct (Z.max_spec (stage_m w b g)
              (Py.round (Py.truediv (stage_v w b) (stage_m w b g)) * stage_m w b g))
    as [[_ ->]|[_ ->]]; [apply Z.divide_factor_r | reflexivity].
Qed.

Lemma stage_m_le_v' : stage_m w b g <= stage_v' w b g.
Proof. unfold stage_v'. lia. Qed.

Lemma stage_v'_pos : 1 <= stage_v' w b g.
Proof. pose proof stage_m_pos. pose proof stage_m_le_v'. lia. Qed.

Lemma stage_g_divides_v' : (stage_g w b g | stage_v' w b g).
Proof. eapply Z.divide_trans; [apply stage_g_divides_m | apply stage_m_divides_v']. Qed.

Lemma stage_quotient_nonneg : (0 <= inject_Z (stage_v' w b g) / b)%Q.
Proof.
  apply Qle_shift_div_l; [exact Hb|].
  pose proof stage_v'_pos as Hv. rewrite Zle_Qle in Hv.
  change (inject_Z 1) with 1%Q in Hv. lra.
Qed.

(** When the adjusted bottleneck width is an integral multiple of the
    ratio, back-solving is exact and the final check passes. *)
Lemma stage_compatible_of_integral t :
  (inject_Z (stage_v' w b g) / b == inject_Z t)%Q ->
  stage_w' w b g = t /\ compatible (stage_w' w b g) b (stage_g w b g) = true.
Proof.
  intros Ht.
  assert (Hw : stage_w' w b g = t).
  { unfold stage_w'. rewrite int_floor by apply stage_quotient_nonneg.
    rewrite Ht. apply Qfloor_Z. }
  split; [exact Hw|].
  unfold compatible. apply Qeq_bool_iff. rewrite Hw.
  apply fmod_zero_of_multiple with (v := stage_v' w b g).
  - rewrite <- Ht. field. lra.
  - pose proof stage_g_bounds. lia.
  - apply stage_g_divides_v'.
Qed.

End Stage.

Lemma stage_w'_pos w b g :
  (0 < b)%Q -> 0 < g -> admissible b = true -> 1 <= stage_w' w b g.
Proof.
  intros Hb Hg Ha.
  pose proof (stage_v'_pos w b g Hb Hg) as Hv'.
  unfold stage_w'. rewrite int_floor by (apply stage_quotient_nonneg; assumption).
  rewrite <- (Qfloor_Z 1). apply Qfloor_resp_le. change (inject_Z 1) with 1%Q.
  apply Qle_shift_div_l; [exact Hb|]. rewrite Qmult_1_l.
  destruct (Py.ltb 1 b) eqn:H1.
  - apply ltb_lt in H1. unfold admissible in Ha. apply orb_true_iff in Ha.
    destruct Ha as [Ha|Ha]; [apply ltb_lt in Ha; lra|].
    apply Qeq_bool_iff in Ha. apply integral_of_fmod in Ha; [|lra].
    pose proof (stage_m_pos w b g Hb Hg) as Hm.
    pose proof (stage_m_le_v' w b g) as Hmv.
    assert (Hdiv : (Py.int b | stage_m w b g)).
    { unfold stage_m. apply ltb_lt in H1. rewrite H1. apply Z.divide_lcm_r. }
    apply Z.divide_pos_le in Hdiv; [|lia].
    assert (Hle : (inject_Z (Py.int b) <= inject_Z (stage_v' w b g))%Q)
      by (rewrite <- Zle_Qle; lia).
    lra.
  - apply ltb_ge in H1. rewrite Zle_Qle in Hv'. change (inject_Z 1) with 1%Q in Hv'. lra.
Qed.

Lemma stage_integral_of_unit_ratio w b g :
  (0 < b)%Q -> 0 < g -> unit_ratio b ->
  exists t, (inject_Z (stage_v' w b g) / b == inject_Z t)%Q.
Proof.
  intros Hb Hg (n & Hn & [Hbn|Hbn]).
  - assert (Hn0 : ~ (inject_Z n == 0)%Q).
    { change 0%Q with (inject_Z 0). rewrite inject_Z_injective. lia. }
    destruct (Py.ltb 1 b) eqn:H1.
    + assert (Hint : Py.int b = n) by (apply int_of_eq; [exact Hbn | lia]).
      assert (Hdiv : (n | stage_v' w b g)).
      { eapply Z.divide_trans; [|apply stage_m_divides_v'].
        unfold stage_m. rewrite H1, Hint. apply Z.divide_lcm_r. }
      destruct Hdiv as [k Hk]. exists k.
      rewrite Hk, Hbn, inject_Z_mult. field. exact Hn0.
    + apply ltb_ge in H1. rewrite Hbn in H1. change 1%Q with (inject_Z 1) in H1.
      rewrite <- Zle_Qle in H1. assert (n = 1) by lia. subst n.
      exists (stage_v' w b g). generalize (stage_v' w b g). intros v.
      rewrite Hbn. change (inject_Z 1) with 1%Q. field.
  - exists (stage_v' w b g * n). generalize (stage_v' w b g). intros v.
    rewrite Hbn, inject_Z_mult. field.
    change 0%Q with (inject_Z 0). rewrite inject_Z_injective. lia.
Qed.

(** ** From stages to lists *)

Lemma list3_ind (P : list Z -> list Q -> list Z -> Prop) :
  P [] [] [] ->
  (forall w b g ws bs gs, length ws = length bs -> length bs = length gs ->
     P ws bs gs -> P (w :: ws) (b :: bs) (g :: gs)) ->
  forall ws bs gs, length ws = length bs -> length bs = length gs -> P ws bs gs.
Proof.
  intros Hnil Hcons ws. induction ws as [|w ws IH]; intros [|b bs] [|g gs] H1 H2;
    simpl in *; try discriminate; [exact Hnil|].
  apply Hcons; [congruence | congruence | apply IH; congruence].
Qed.

Lemma adjusted_groups ws bs gs :
  length ws = length bs -> length bs = length gs ->
  clipped_groups gs (bottleneck_widths ws bs) = map3 stage_g ws bs gs.
Proof.
  revert ws bs gs. apply list3_ind; [reflexivity|].
  intros w b g ws bs gs _ _ IH.
  unfold clipped_groups, bottleneck_widths, map3, zip3 in *.
  cbn [zip_with fmap list_fmap]. rewrite IH. reflexivity.
Qed.

Lemma adjusted_widths ws bs gs :
  length ws = length bs -> length bs = length gs ->
  back_solved
    (rounded_widths (bottleneck_widths ws bs)
       (moduli (clipped_groups gs (bottleneck_widths ws bs)) bs)) bs
  = map3 stage_w' ws bs gs.
Proof.
  revert ws bs gs. apply list3_ind; [reflexivity|].
  intros w b g ws bs gs _ _ IH.
  unfold back_solved, rounded_widths, moduli, clipped_groups, bottleneck_widths, map3, zip3 in *.
  cbn [zip_with fmap list_fmap]. rewrite IH. reflexivity.
Qed.

Lemma all_compatible_stages ws bs gs :
  length ws = length bs -> length bs = length gs ->
  all_compatible (map3 stage_w' ws bs gs) bs (map3 stage_g ws bs gs)
  = forallb (fun '(w, b, g) => compatible (stage_w' w b g) b (stage_g w b g)) (zip3 ws bs gs).
Proof.
  revert ws bs gs. apply list3_ind; [reflexivity|].
  intros w b g ws bs gs _ _ IH.
  unfold all_compatible, map3, zip3 in *.
  cbn [zip_with fmap list_fmap forallb]. rewrite IH. reflexivity.
Qed.

Lemma all_positive_Forall ws bs gs :
  all_positive ws bs gs = true ->
  Forall (fun '(w, b, g) => 0 < w /\ (0 < b)%Q /\ 0 < g) (zip3 ws bs gs).
Proof.
  unfold all_positive. rewrite forallb_forall, Forall_forall.
  intros Hall [[w b] g] Hin. apply list_elem_of_In in Hin.
  specialize (Hall _ Hin). cbv beta iota in Hall.
  apply andb_true_iff in Hall as [Hall Hg]. apply andb_true_iff in Hall as [Hw Hb].
  apply ltb_lt in Hb. repeat split; [lia | exact Hb | lia].
Qed.

Lemma ratios_admissible_Forall ws bs gs :
  length ws = length bs -> length bs = length gs ->
  ratios_admissible bs = true ->
  Forall (fun '(w, b, g) => admissible b = true) (zip3 ws bs gs).
Proof.
  revert ws bs gs.
  apply (list3_ind (fun ws bs gs => ratios_admissible bs = true ->
           Forall (fun '(w, b, g) => admissible b = true) (zip3 ws bs gs)));
    [intros _; constructor|].
  intros w b g ws bs gs _ _ IH Hall.
  unfold ratios_admissible in *. cbn [forallb] in Hall.
  apply andb_true_iff in Hall as [Hb Hall].
  unfold zip3. cbn [zip_with]. constructor; [exact Hb | apply IH, Hall].
Qed.

(** The adjustment, once its three entry assertions have passed. *)
Lemma adjust_unfold ws bs gs :
  adjust_precondition ws bs gs ->
  adjust_block_compatibility ws bs gs =
    if forallb (fun '(w, b, g) => compatible (stage_w' w b g) b (stage_g w b g)) (zip3 ws bs gs)
    then Ok (map3 stage_w' ws bs gs, bs, map3 stage_g ws bs gs)
    else Raise (AssertionError "").
Proof.
  intros (H1 & H2 & Hpos & Hadm). unfold adjust_block_compatibility.
  rewrite H1, H2, Nat.eqb_refl, Hpos, Hadm. cbn [andb py_assert mbind result_bind].
  rewrite adjusted_widths, adjusted_groups, all_compatible_stages by congruence.
  destruct (forallb _ _); reflexivity.
Qed.

Lemma adjust_ok_precondition ws bs gs r :
  adjust_block_compatibility ws bs gs = Ok r -> adjust_precondition ws bs gs.
Proof.
  unfold adjust_block_compatibility, adjust_precondition.
  destruct (length ws =? length bs)%nat eqn:H1; [|discriminate].
  destruct (length bs =? length gs)%nat eqn:H2; [|discriminate].
  apply Nat.eqb_eq in H1, H2. cbn [andb py_assert mbind result_bind].
  destruct (all_positive ws bs gs); [|discriminate]. cbn [py_assert mbind result_bind].
  destruct (ratios_admissible bs); [|discriminate]. auto.
Qed.

Lemma zip3_ratio_elem w b g ws bs gs : (w, b, g) ∈ zip3 ws bs gs -> b ∈ bs.
Proof.
  unfold zip3. intros Hin. apply elem_of_zip_l in Hin. apply elem_of_zip_r in Hin. exact Hin.
Qed.

Lemma forallb_zip3 (f : Z * Q * Z -> bool) ws bs gs :
  (forall w b g, (w, b, g) ∈ zip3 ws bs gs -> f (w, b, g) = true) ->
  forallb f (zip3 ws bs gs) = true.
Proof.
  intros Hf. apply forallb_forall. intros [[w b] g] Hin.
  apply Hf, list_elem_of_In, Hin.
Qed.

(** ** Group-compatibility adjustment: the claims *)




(** C2, as amended.  The bottleneck width of a stage is
    [int(max(1, width * ratio))]: the product is rounded down, it is at most
    the value obtained by rounding to nearest, and at most one below it. *)
Theorem bottleneck_widths_round_down ws bs :
  bottleneck_widths ws bs
    = zip_with (fun w b => Z.max 1 (Qfloor (inject_Z w * b))) ws bs /\
  Forall2 (fun v s => v <= s <= v + 1)
    (bottleneck_widths ws bs) (bottleneck_widths_spec ws bs).
Proof.
  unfold bottleneck_widths, bottleneck_widths_spec. split.
  - revert bs. induction ws as [|w ws IH]; intros [|b bs]; cbn [zip_with]; try reflexivity.
    rewrite int_max1, IH. reflexivity.
  - revert bs. induction ws as [|w ws IH]; intros [|b bs]; cbn [zip_with]; try constructor.
    + rewrite int_max1. pose proof (floor_le_round (inject_Z w * b)). lia.
    + apply IH.
Qed.

(** C2, counterexample.  For width 7 and ratio 0.25 the source computes
    bottleneck width 1, while rounding to nearest gives 2. *)
Lemma bottleneck_width_not_rounded :
  bottleneck_widths [7] [(1 # 4)%Q] = [1] /\
  bottleneck_widths_spec [7] [(1 # 4)%Q] = [2] /\
  bottleneck_widths [7] [(1 # 4)%Q] <> bottleneck_widths_spec [7] [(1 # 4)%Q].
Proof. repeat split; try reflexivity. vm_compute. discriminate. Qed.

(** C7.  On widths [[24, 24]], ratios [[1, 1]] and group widths [[8, 8]] the
    adjustment returns its inputs unchanged. *)
Theorem adjust_scenario_2 :
  adjust_block_compatibility [24; 24] [1%Q; 1%Q] [8; 8] = Ok ([24; 24], [1%Q; 1%Q], [8; 8]).
Proof. vm_compute. reflexivity. Qed.

Lemma map3_groups_le ws bs gs :
  length ws = length bs -> length bs = length gs ->
  Forall2 Z.le (map3 stage_g ws bs gs) gs.
Proof.
  revert ws bs gs. apply list3_ind; [constructor|].
  intros w b g ws bs gs _ _ IH. unfold map3, zip3 in *.
  cbn [zip_with fmap list_fmap]. constructor; [apply Z.le_min_l | exact IH].
Qed.



(** ** Width quantizer: the claims *)

Lemma count_insert_total x tbl : total (count_insert x tbl).*2 = total tbl.*2 + 1.
Proof.
  induction tbl as [|[y c] rest IH]; [reflexivity|].
  cbn [count_insert]. destruct (x <? y); [|destruct (x =? y)];
    unfold total in *; cbn [fmap list_fmap snd foldr] in *; lia.
Qed.

Lemma count_insert_length x tbl : length (count_insert x tbl).*1 = length (count_insert x tbl).*2.
Proof. rewrite !length_fmap. reflexivity. Qed.

Lemma unique_counts_total a : total (np_unique_counts a).2 = Z.of_nat (length a).
Proof.
  unfold np_unique_counts. cbn [snd].
  induction a as [|x a IH]; [reflexivity|].
  cbn [foldr length]. rewrite count_insert_total, IH. lia.
Qed.

Lemma unique_counts_length a : length (np_unique_counts a).1 = length (np_unique_counts a).2.
Proof. unfold np_unique_counts. cbn [fst snd]. rewrite !length_fmap. reflexivity. Qed.

Lemma arange_length d : length (arange d) = Z.to_nat d.
Proof. unfold arange. rewrite length_fmap, length_seq. reflexivity. Qed.

(** C3.  For every valid design-space input the generator returns, and the
    per-stage depths it returns sum to the requested depth; with depth 1 it
    returns exactly one stage, of depth 1.  This holds for every behaviour of
    the rounded quotient of logarithms. *)
Theorem generate_regnet_depth_conservation round_log w_a w_0 w_m d q :
  (0 <= w_a)%Q -> 0 < w_0 -> (1 < w_m)%Q -> w_0 mod q = 0 -> 0 < d ->
  exists ws ds num_stages total_stages ws_all ws_cont,
    generate_regnet round_log w_a w_0 w_m d q
      = Ok (ws, ds, num_stages, total_stages, ws_all, ws_cont) /\
    total ds = d /\ length ds = length ws /\ num_stages = Z.of_nat (length ws) /\
    (d = 1 -> ds = [1] /\ length ws = 1%nat).
Proof.
  intros Ha H0 Hm Hq Hd.
  assert (Hq0 : q <> 0) by (intros ->; rewrite Z.mod_0_r in Hq; lia).
  unfold generate_regnet.
  apply Qle_bool_iff in Ha. apply Z.ltb_lt in H0. apply ltb_lt in Hm.
  rewrite Ha, H0, Hm. cbn [andb py_assert mbind result_bind].
  destruct (q =? 0) eqn:Eq; [apply Z.eqb_eq in Eq; contradiction|].
  apply Z.eqb_eq in Hq. rewrite Hq. cbn [py_assert mbind result_bind].
  set (ws_cont := ws_cont_of w_a w_0 d).
  set (ks := ks_of round_log ws_cont w_0 w_m).
  set (ws_all := ws_all_of ks w_0 w_m q).
  assert (Hlen : length ws_all = Z.to_nat d).
  { unfold ws_all, ws_all_of, ks, ks_of, ws_cont, ws_cont_of.
    rewrite !length_fmap. apply arange_length. }
  assert (Hks : exists k ks', ks = k :: ks').
  { unfold ks, ks_of, ws_cont, ws_cont_of, arange.
    destruct (Z.to_nat d) eqn:En; [lia|]. cbn [seq fmap list_fmap]. eauto. }
  destruct Hks as (k & ks' & Hks). rewrite Hks. cbn [np_max mbind result_bind].
  pose proof (unique_counts_total ws_all) as Htot.
  pose proof (unique_counts_length ws_all) as Hul.
  destruct (np_unique_counts ws_all) as [ws ds] eqn:Eu. cbn [fst snd] in Htot, Hul.
  exists ws, ds, (Z.of_nat (length ws)), (foldr Z.max k ks' + 1), ws_all, ws_cont.
  split; [reflexivity|]. split; [rewrite Htot, Hlen; lia|].
  split; [symmetry; exact Hul|]. split; [reflexivity|].
  intros ->. change (Z.to_nat 1) with 1%nat in Hlen.
  destruct ws_all as [|x [|? ?]]; try discriminate.
  cbv in Eu. injection Eu as <- <-. split; reflexivity.
Qed.

Lemma generate_regnet_depth_conservation_witness :
  exists ws ds num_stages total_stages ws_all ws_cont,
    generate_regnet round_log_exact (3644 # 100) 24 (249 # 100) 13 8
      = Ok (ws, ds, num_stages, total_stages, ws_all, ws_cont) /\
    total ds = 13 /\ length ds = length ws /\ num_stages = Z.of_nat (length ws) /\
    (13 = 1 -> ds = [1] /\ length ws = 1%nat).
Proof.
  apply generate_regnet_depth_conservation; [discriminate | lia | reflexivity | reflexivity | lia].
Defined.

(** The reference "200 mega-flop" parameters under the real-number reading
    of the logarithms: four stages of widths 24, 56, 152, 368 and depths
    1, 1, 4, 7. *)
Example generate_200mf :
  exists ws_all ws_cont,
    generate_regnet round_log_exact (3644 # 100) 24 (249 # 100) 13 8
      = Ok ([24; 56; 152; 368], [1; 1; 4; 7], 4, 4, ws_all, ws_cont).
Proof. eexists _, _. vm_compute. reflexivity. Qed.

(** ** Residual blocks: the shortcut rule *)

Lemma conv2d_ok w_in w_out k stride groups bias :
  k mod 2 = 1 -> groups <> 0 ->
  conv2d w_in w_out k stride groups bias
  = Ok {| conv_in := w_in; conv_out := w_out; conv_k := k; conv_stride := stride;
          conv_padding := (k - 1) / 2; conv_group := groups; conv_has_bias := bias |}.
Proof.
  intros Hk Hg. unfold conv2d. apply Z.eqb_eq in Hk. apply Z.eqb_neq in Hg.
  rewrite Hk, Hg. reflexivity.
Qed.

Lemma conv2d_1x1 w_in w_out stride :
  conv2d w_in w_out 1 stride 1 false = Ok (projection w_in w_out stride).
Proof. reflexivity. Qed.

Lemma shortcut_choice w_in w_out stride bn_eps bn_mom :
  exists proj bn,
    (if negb (w_in =? w_out) || negb (stride =? 1) then
       proj ← conv2d w_in w_out 1 stride 1 false;
       Ok (Some proj, Some (norm2d w_out bn_eps bn_mom))
     else Ok (None, None)) = Ok (proj, bn) /\
    shortcut_rule w_in w_out stride bn_eps bn_mom proj bn.
Proof.
  unfold shortcut_rule.
  destruct (w_in =? w_out) eqn:Ew; destruct (stride =? 1) eqn:Es;
    rewrite ?Z.eqb_eq, ?Z.eqb_neq in Ew, Es; cbn [negb orb];
    rewrite ?conv2d_1x1; cbn [mbind result_bind];
    eexists _, _; (split; [reflexivity|]);
    repeat split; try (intros; (lia || eauto || (exfalso; lia))).
  all: try (intros [? Hs]; discriminate Hs).
  all: try (intros [? Hs]; exfalso; inversion Hs).
Qed.

Lemma basic_transform_built w_in w_out stride params bn_eps bn_mom :
  exists f, BasicTransform_init w_in w_out stride params bn_eps bn_mom = Ok f.
Proof.
  unfold BasicTransform_init.
  rewrite !conv2d_ok by (reflexivity || lia). cbn [mbind result_bind]. eauto.
Qed.

Lemma SE_init_ok w_in w_se :
  SE_init w_in w_se
  = Ok {| se_avg_pool := gap2d w_in;
          se_f_ex := ({| conv_in := w_in; conv_out := w_se; conv_k := 1; conv_stride := 1;
                         conv_padding := 0; conv_group := 1; conv_has_bias := true |},
                      activation,
                      {| conv_in := w_se; conv_out := w_in; conv_k := 1; conv_stride := 1;
                         conv_padding := 0; conv_group := 1; conv_has_bias := true |},
                      nn_Sigmoid) |}.
Proof. reflexivity. Qed.

(** What [BottleneckTransform.__init__] builds when it returns. *)
Lemma bottleneck_transform_inv w_in w_out stride params bn_eps bn_mom m :
  BottleneckTransform_init w_in w_out stride params bn_eps bn_mom = Ok m ->
  exists b g,
    bot_mul params = Some b /\ group_w params = Some g /\ g <> 0 /\
    let w_b := Py.round (inject_Z w_out * b) in
    w_b / g <> 0 /\
    bo_a m = projection w_in w_b 1 /\ bo_a_bn m = norm2d w_b bn_eps bn_mom /\
    bo_b m = {| conv_in := w_b; conv_out := w_b; conv_k := 3; conv_stride := stride;
                conv_padding := 1; conv_group := w_b / g; conv_has_bias := false |} /\
    bo_b_bn m = norm2d w_b bn_eps bn_mom /\
    bo_se m = (if se_width w_in params =? 0 then None
               else match SE_init w_b (se_width w_in params) with
                    | Ok se => Some se
                    | Raise _ => None
                    end) /\
    bo_c m = projection w_b w_out 1 /\
    bo_c_bn m = mark_final (norm2d w_out bn_eps bn_mom).
Proof.
  unfold BottleneckTransform_init.
  destruct (bot_mul params) as [b|]; [|discriminate].
  destruct (group_w params) as [g|]; [|discriminate].
  cbn [need mbind result_bind]. unfold floordiv.
  destruct (g =? 0) eqn:Eg; [discriminate|]. apply Z.eqb_neq in Eg.
  cbn [mbind result_bind]. rewrite conv2d_1x1. cbn [mbind result_bind].
  set (w_b := Py.round (inject_Z w_out * b)).
  destruct (Z.eq_dec (w_b / g) 0) as [E0|E0].
  { unfold conv2d. rewrite E0. cbn. discriminate. }
  rewrite (conv2d_ok w_b w_b 3 stride (w_b / g) false) by (reflexivity || assumption).
  cbn [mbind result_bind]. rewrite SE_init_ok, conv2d_1x1.
  destruct (se_width w_in params =? 0) eqn:Ese; cbn [negb mbind result_bind];
    intros [= <-]; exists b, g; cbn; repeat split; auto.
Qed.

Lemma bottleneck_transform_built w_in w_out stride params bn_eps bn_mom b g :
  bot_mul params = Some b -> group_w params = Some g -> g <> 0 ->
  Py.round (inject_Z w_out * b) / g <> 0 ->
  exists m, BottleneckTransform_init w_in w_out stride params bn_eps bn_mom = Ok m.
Proof.
  intros Hb Hg Hg0 Hgr. unfold BottleneckTransform_init. rewrite Hb, Hg.
  cbn [need mbind result_bind]. unfold floordiv.
  apply Z.eqb_neq in Hg0. rewrite Hg0. apply Z.eqb_neq in Hg0.
  cbn [mbind result_bind]. rewrite conv2d_1x1. cbn [mbind result_bind].
  rewrite (conv2d_ok _ _ 3 stride _ false) by (reflexivity || assumption).
  cbn [mbind result_bind]. rewrite SE_init_ok, conv2d_1x1.
  destruct (negb _); cbn [mbind result_bind]; eauto.
Qed.



(** ** Squeeze-excite gate *)

Lemma round_zero_iff x : Py.round x = 0 <-> (- (1 # 2) <= x <= 1 # 2)%Q.
Proof.
  split.
  - intros H0. pose proof (round_bounds x) as [Hlo Hhi]. rewrite H0 in Hlo, Hhi.
    change (inject_Z 0) with 0%Q in Hlo, Hhi. split; lra.
  - intros [Hlo Hhi]. unfold Py.round. cbv zeta.
    pose proof (Qfloor_le x) as Hfl. pose proof (Qlt_floor x) as Hfh.
    assert (Hf : Qfloor x = 0 \/ Qfloor x = -1).
    { assert (Qfloor x < 1).
      { rewrite Zlt_Qlt. change (inject_Z 1) with 1%Q. lra. }
      assert (-2 < Qfloor x + 1 - 1).
      { rewrite inject_Z_plus in Hfh. change (inject_Z 1) with 1%Q in Hfh.
        replace (Qfloor x + 1 - 1) with (Qfloor x) by lia.
        rewrite Zlt_Qlt. change (inject_Z (-2)) with (-2 # 1)%Q. lra. }
      lia. }
    destruct Hf as [Hf|Hf]; rewrite Hf in *.
    + change (inject_Z 0) with 0%Q in *.
      destruct (Qcompare_spec (x - 0) (1 # 2)) as [He|Hl|Hg];
        [reflexivity | reflexivity | exfalso; lra].
    + change (inject_Z (-1)) with (-1 # 1)%Q in *.
      destruct (Qcompare_spec (x - (-1 # 1)) (1 # 2)) as [He|Hl|Hg];
        [reflexivity | exfalso; lra | reflexivity].
Qed.

Lemma Conv2d_cx_params cx c cx' :
  Conv2d_cx cx c = Ok cx' -> params cx' = params cx + conv_params c.
Proof.
  unfold Conv2d_cx, conv2d_cx, conv_params, floordiv.
  destruct (conv_k c mod 2 =? 1); [|discriminate]. cbn [py_assert mbind result_bind].
  destruct (conv_stride c =? 0); [discriminate|]. cbn [mbind result_bind].
  destruct (conv_group c =? 0); [discriminate|]. cbn [mbind result_bind].
  intros [= <-]. reflexivity.
Qed.

Lemma BatchNorm2d_cx_params cx n : params (BatchNorm2d_cx cx n) = params cx + 2 * num_features n.
Proof. reflexivity. Qed.




(** ** Vocabulary lookups *)

Lemma get_block_fun_unknown tag :
  block_funs !! tag = None -> get_block_fun tag = Raise (UnknownBlockKind tag).
Proof.
  intros Hnone. unfold get_block_fun.
  rewrite bool_decide_eq_false_2; [reflexivity|].
  rewrite elem_of_dom, Hnone. intros [? Hs]. discriminate Hs.
Qed.

Lemma get_stem_fun_unknown tag :
  stem_funs !! tag = None -> get_stem_fun tag = Raise (UnknownStemKind tag).
Proof.
  intros Hnone. unfold get_stem_fun.
  rewrite bool_decide_eq_false_2; [reflexivity|].
  rewrite elem_of_dom, Hnone. intros [? Hs]. discriminate Hs.
Qed.

Lemma get_stem_fun_known tag cls :
  stem_funs !! tag = Some cls -> get_stem_fun tag = Ok cls.
Proof.
  intros Hsome. unfold get_stem_fun.
  rewrite bool_decide_eq_true_2; [|rewrite elem_of_dom, Hsome; eauto].
  cbn [py_assert mbind result_bind]. rewrite Hsome. reflexivity.
Qed.

Lemma block_funs_unknown tag :
  tag <> "vanilla_block" -> tag <> "res_basic_block" ->
  tag <> "res_bottleneck_block" -> tag <> "res_bottleneck_linear_block" ->
  block_funs !! tag = None.
Proof.
  intros H1 H2 H3 H4. unfold block_funs.
  rewrite !lookup_insert_ne by congruence. apply lookup_singleton_ne. congruence.
Qed.

Lemma stem_funs_unknown tag :
  tag <> "res_stem_cifar" -> tag <> "res_stem_in" -> tag <> "simple_stem_in" ->
  stem_funs !! tag = None.
Proof.
  intros H1 H2 H3. unfold stem_funs.
  rewrite !lookup_insert_ne by congruence. apply lookup_singleton_ne. congruence.
Qed.

(** C8.  A block kind outside the vocabulary makes the block lookup fail with
    the "Block type ... not supported" assertion error ([UnknownBlockKind]),
    and a stem kind outside it makes the stem lookup fail with
    [UnknownStemKind].  Both lookups run in [AnyNet.__init__] before the stem
    is constructed, so assembly returns the error and no network. *)
Theorem unknown_kinds_rejected block_type stem_type :
  block_funs !! block_type = None ->
  stem_funs !! stem_type = None ->
  get_block_fun block_type = Raise (UnknownBlockKind block_type) /\
  get_stem_fun stem_type = Raise (UnknownStemKind stem_type) /\
  (forall depths stem_w known_stem widths strides bot_muls group_ws head_w num_classes
          bn_eps bn_mom,
     is_Some (stem_funs !! known_stem) ->
     AnyNet_init depths known_stem stem_w block_type widths strides bot_muls group_ws
       head_w num_classes bn_eps bn_mom = Raise (UnknownBlockKind block_type)) /\
  (forall depths stem_w any_block widths strides bot_muls group_ws head_w num_classes
          bn_eps bn_mom,
     AnyNet_init depths stem_type stem_w any_block widths strides bot_muls group_ws
       head_w num_classes bn_eps bn_mom = Raise (UnknownStemKind stem_type)).
Proof.
  intros Hb Hs.
  split; [apply get_block_fun_unknown, Hb|].
  split; [apply get_stem_fun_unknown, Hs|].
  split.
  - intros depths stem_w known_stem widths strides bot_muls group_ws head_w num_classes
      bn_eps bn_mom [cls Hcls].
    unfold AnyNet_init. cbn [anynet_get_params p_stem_type p_block_type].
    rewrite (get_stem_fun_known _ _ Hcls). cbn [mbind result_bind].
    rewrite (get_block_fun_unknown _ Hb). reflexivity.
  - intros. unfold AnyNet_init. cbn [anynet_get_params p_stem_type p_block_type].
    rewrite (get_stem_fun_unknown _ Hs). reflexivity.
Qed.

Lemma unknown_kinds_rejected_witness :
  get_block_fun "bogus" = Raise (UnknownBlockKind "bogus") /\
  get_stem_fun "bogus" = Raise (UnknownStemKind "bogus") /\
  AnyNet_init [1; 1] "simple_stem_in" 32 "bogus" [24; 56] [2; 2] [1%Q; 1%Q] [8; 8]
    0 1000 (1 # 100000) (9 # 10) = Raise (UnknownBlockKind "bogus").
Proof.
  destruct (unknown_kinds_rejected "bogus" "bogus") as (Hb & Hs & Hnet & _).
  - apply block_funs_unknown; discriminate.
  - apply stem_funs_unknown; discriminate.
  - split; [exact Hb|]. split; [exact Hs|].
    apply Hnet. exists SimpleStem_class. reflexivity.
Defined.

(** ** Cost accounting against the built structure *)

Ltac lia_div := zify; Z.to_euclidean_division_equations; lia.

(** Where a stem carries a cost rule, the rule tracks the spatial size of
    the stem's output. *)
Lemma ResStem_complexity_tracks_shape cx w_in w_out bn_eps bn_mom ch cx' m :
  ResStem_init w_in w_out bn_eps bn_mom = Ok m ->
  ResStem_complexity cx w_in w_out = Ok cx' ->
  cx_hw cx' = hw_of (ResStem_construct m (ch, h cx, w cx)).
Proof.
  intros [= <-]. unfold ResStem_complexity, conv2d_cx, pool2d_cx, floordiv.
  cbn. intros [= <-]. unfold cx_hw, hw_of, window. cbn.
  change ((7 - 1) / 2) with 3. change ((3 - 1) / 2) with 1. f_equal; lia_div.
Qed.

Lemma ResStemCifar_complexity_tracks_shape cx w_in w_out bn_eps bn_mom ch cx' m :
  ResStemCifar_init w_in w_out bn_eps bn_mom = Ok m ->
  ResStemCifar_complexity cx w_in w_out = Ok cx' ->
  cx_hw cx' = hw_of (ResStemCifar_construct m (ch, h cx, w cx)).
Proof.
  intros [= <-]. unfold ResStemCifar_complexity, conv2d_cx, floordiv.
  cbn. intros [= <-]. unfold cx_hw, hw_of, window. cbn.
  change ((7 - 1) / 2) with 3. change ((3 - 1) / 2) with 1. f_equal; lia_div.
Qed.

Lemma AnyHead_complexity_tracks_shape cx w_in head_w num_classes bn_eps bn_mom ch cx' m x :
  AnyHead_init w_in head_w num_classes bn_eps bn_mom = Ok m ->
  AnyHead_complexity cx w_in head_w num_classes = Ok cx' ->
  AnyHead_features m (ch, h cx, w cx) = Ok x ->
  cx_hw cx' = hw_of x.
Proof.
  unfold AnyHead_init, AnyHead_complexity, AnyHead_features.
  destruct (0 <? head_w) eqn:Eh.
  - rewrite conv2d_1x1. cbn [mbind result_bind]. intros [= <-].
    cbn [head_width head_conv head_bn head_af head_avg_pool]. rewrite Eh.
    destruct (conv2d_cx _ _ _ _ _ _ _); [|discriminate].
    cbn. intros [= <-] [= <-]. reflexivity.
  - intros [= <-]. cbn [head_width head_conv head_bn head_af head_avg_pool]. rewrite Eh.
    cbn. intros [= <-] [= <-]. reflexivity.
Qed.

(** No block class of the vocabulary carries a [complexity] attribute. *)
Lemma vocabulary_blocks_lack_complexity tag cls :
  block_funs !! tag = Some cls -> block_complexity cls = None.
Proof.
  unfold block_funs. intros Hl.
  repeat (apply lookup_insert_Some in Hl as [[_ <-]|[_ Hl]]; [reflexivity|]).
  apply lookup_singleton_Some in Hl as [_ <-]. reflexivity.
Qed.

Lemma stage_complexity_fails tag cls cx w_in w_out stride d ps :
  block_funs !! tag = Some cls -> 0 < d ->
  exists msg, AnyStage_complexity cx w_in w_out stride d cls ps = Raise (AttributeError msg).
Proof.
  intros Hl Hd. unfold AnyStage_complexity.
  destruct (Z.to_nat d) eqn:En; [lia|].
  cbn [AnyStage_complexity_loop]. unfold getattr_complexity.
  rewrite (vocabulary_blocks_lack_complexity _ _ Hl). cbn [mbind result_bind]. eauto.
Qed.

(** C4, at the failing input.  The first stage of the 200MF network is built
    from the bottleneck block of the vocabulary and maps a 112x112 feature
    map to 56x56; the cost rule of the stage on the same arguments raises
    [AttributeError], because the block class has no [complexity], and
    yields no cost state. *)
Theorem stage_cost_rule_has_no_block_rule :
  let ps := {| bot_mul := Some 1%Q; group_w := Some 8; se_r := 0%Q |} in
  let cx := {| h := 112; w := 112; flops := 0; params := 0; acts := 0 |} in
  get_block_fun "res_bottleneck_block" = Ok ResBottleneckBlock_class /\
  (exists stage,
     AnyStage_init 32 24 2 1 ResBottleneckBlock_class ps (1 # 100000) (9 # 10) = Ok stage /\
     AnyStage_construct stage ((32, 112, 112) : Shape) = Ok (24, 56, 56)) /\
  AnyStage_complexity cx 32 24 2 1 ResBottleneckBlock_class ps
    = Raise (AttributeError "type object 'ResBottleneckBlock' has no attribute 'complexity'").
Proof.
  cbv zeta. split; [vm_compute; reflexivity|]. split; [|vm_compute; reflexivity].
  eexists. split; vm_compute; reflexivity.
Qed.

(** ** The 200MF factory *)

(** C10.  Whatever [pretrained], [num_classes] and [in_channels] are, the
    factory builds the network of the fixed call
    [RegNet(36.44, 24, 2.49, 13, 2, 1.0, 8, 'simple_stem_in', 32,
    'res_bottleneck_block', 0, 1000, 1e-5, 0.9)]: under the real-number
    reading of the logarithms this is a simple stem from 3 to 32 channels,
    four stages of 1, 1, 4 and 7 bottleneck blocks, and a classifier from 368
    features to 1000 classes. *)
Theorem regnet200mf_fixed_configuration round_log pretrained num_classes in_channels :
  regnet200mf round_log pretrained num_classes in_channels
    = RegNet_init round_log (3644 # 100) 24 (249 # 100) 13 2 1 8 "simple_stem_in" 32
        "res_bottleneck_block" 0 1000 (1 # 100000) (9 # 10) /\
  regnet200mf round_log pretrained num_classes in_channels
    = regnet200mf round_log false 1000 3 /\
  exists net,
    regnet200mf round_log_exact pretrained num_classes in_channels = Ok net /\
    stem net = Stem_simple {| simple_conv := {| conv_in := 3; conv_out := 32; conv_k := 3;
                                                conv_stride := 2; conv_padding := 1;
                                                conv_group := 1; conv_has_bias := false |};
                              simple_bn := norm2d 32 (1 # 100000) (9 # 10);
                              simple_af := activation |} /\
    (fun st => length (blocks st)) <$> stages net = [1; 1; 4; 7]%nat /\
    Forall (fun st => Forall (fun b => exists m, b = Block_bottleneck m) (blocks st))
      (stages net) /\
    head_fc (head net) = linear 368 1000 true.
Proof.
  split; [reflexivity|]. split; [reflexivity|].
  eexists. split; [vm_compute; reflexivity|].
  cbn [stem stages head head_fc].
  split; [reflexivity|]. split; [reflexivity|]. split; [|reflexivity].
  repeat constructor; eexists; reflexivity.
Qed.

(** * Further properties of the code *)

(** ** The adjustment is exact and idempotent *)

Lemma map3_ext {A} (f f' : Z -> Q -> Z -> A) ws bs gs :
  (forall w b g, (w, b, g) ∈ zip3 ws bs gs -> f w b g = f' w b g) ->
  map3 f ws bs gs = map3 f' ws bs gs.
Proof.
  intros Hext. unfold map3. apply list_fmap_ext.
  intros i [[w b] g] Hl. apply Hext. eapply list_elem_of_lookup_2, Hl.
Qed.

Lemma zip3_map3 (a c : Z -> Q -> Z -> Z) ws bs gs :
  length ws = length bs -> length bs = length gs ->
  zip3 (map3 a ws bs gs) bs (map3 c ws bs gs)
  = (fun '(w, b, g) => (a w b g, b, c w b g)) <$> zip3 ws bs gs.
Proof.
  revert ws bs gs. apply list3_ind; [reflexivity|].
  intros w b g ws bs gs _ _ IH. unfold map3, zip3 in *.
  cbn [zip_with fmap list_fmap]. rewrite IH. reflexivity.
Qed.

Lemma map3_map3 {A} (f : Z -> Q -> Z -> A) (a c : Z -> Q -> Z -> Z) ws bs gs :
  length ws = length bs -> length bs = length gs ->
  map3 f (map3 a ws bs gs) bs (map3 c ws bs gs)
  = map3 (fun w b g => f (a w b g) b (c w b g)) ws bs gs.
Proof.
  intros H1 H2. unfold map3 at 1. rewrite zip3_map3 by assumption.
  unfold map3. rewrite <- list_fmap_compose. apply list_fmap_ext.
  intros i [[w b] g] _. reflexivity.
Qed.

Lemma map3_length {A} (f : Z -> Q -> Z -> A) ws bs gs :
  length ws = length bs -> length bs = length gs ->
  length (map3 f ws bs gs) = length ws.
Proof.
  intros H1 H2. unfold map3, zip3. rewrite length_fmap, !length_zip. lia.
Qed.

(** When the final check of a stage passes, back-solving was exact:
    [width' * ratio] is the adjusted bottleneck width itself. *)
Lemma stage_exact w b g :
  (0 < b)%Q -> 0 < g -> admissible b = true ->
  compatible (stage_w' w b g) b (stage_g w b g) = true ->
  (inject_Z (stage_w' w b g) * b == inject_Z (stage_v' w b g))%Q.
Proof.
  intros Hb Hg Ha Hc.
  destruct (Py.ltb b 1) eqn:Hlt.
  - apply ltb_lt in Hlt.
    pose proof (stage_g_bounds w b g Hg) as Hgb.
    pose proof (stage_quotient_nonneg w b g Hb Hg) as Hq0.
    assert (Hw : stage_w' w b g = Qfloor (inject_Z (stage_v' w b g) / b)).
    { unfold stage_w'. apply int_floor, Hq0. }
    set (q := (inject_Z (stage_v' w b g) / b)%Q) in *.
    assert (Hqb : (q * b == inject_Z (stage_v' w b g))%Q).
    { unfold q. field. lra. }
    pose proof (Qfloor_le q) as Hlo. pose proof (Qlt_floor q) as Hhi.
    rewrite inject_Z_plus in Hhi. change (inject_Z 1) with 1%Q in Hhi.
    rewrite <- Hw in Hlo, Hhi.
    assert (Hlo' : (inject_Z (stage_w' w b g) * b <= inject_Z (stage_v' w b g))%Q).
    { rewrite <- Hqb. apply Qmult_le_compat_r; [exact Hlo | lra]. }
    assert (Hhi' : (inject_Z (stage_v' w b g) < inject_Z (stage_w' w b g) * b + 1)%Q).
    { rewrite <- Hqb.
      apply Qlt_le_trans with ((inject_Z (stage_w' w b g) + 1) * b)%Q.
      - apply Qmult_lt_compat_r; [exact Hb | exact Hhi].
      - ring_simplify. lra. }
    unfold compatible in Hc. apply Qeq_bool_iff in Hc. unfold Py.fmod in Hc.
    set (k := Qfloor (inject_Z (stage_w' w b g) * b / inject_Z (stage_g w b g))) in *.
    assert (Hx : (inject_Z (stage_w' w b g) * b == inject_Z (stage_g w b g * k))%Q).
    { rewrite inject_Z_mult. lra. }
    rewrite Hx in Hlo', Hhi'. rewrite Hx.
    change 1%Q with (inject_Z 1) in Hhi'. rewrite <- inject_Z_plus in Hhi'.
    rewrite <- Zle_Qle in Hlo'. rewrite <- Zlt_Qlt in Hhi'.
    replace (stage_v' w b g) with (stage_g w b g * k) by lia. reflexivity.
  - apply ltb_ge in Hlt. unfold admissible in Ha. apply orb_true_iff in Ha.
    destruct Ha as [Ha|Ha]; [apply ltb_lt in Ha; lra|].
    apply Qeq_bool_iff in Ha. apply integral_of_fmod in Ha; [|lra].
    assert (Hn : 0 < Py.int b).
    { rewrite Zlt_Qlt. rewrite <- Ha. exact Hb. }
    destruct (stage_integral_of_unit_ratio w b g Hb Hg) as [t Ht].
    { exists (Py.int b). split; [exact Hn | left; exact Ha]. }
    destruct (stage_compatible_of_integral w b g Hb Hg t Ht) as [-> _].
    rewrite <- Ht. field. lra.
Qed.

(** A stage whose final check passes is a fixed point of the adjustment. *)
Lemma stage_fixpoint w b g :
  (0 < b)%Q -> 0 < g -> admissible b = true ->
  compatible (stage_w' w b g) b (stage_g w b g) = true ->
  stage_w' (stage_w' w b g) b (stage_g w b g) = stage_w' w b g /\
  stage_g (stage_w' w b g) b (stage_g w b g) = stage_g w b g.
Proof.
  intros Hb Hg Ha Hc.
  pose proof (stage_exact w b g Hb Hg Ha Hc) as Hx.
  pose proof (stage_v'_pos w b g Hb Hg) as Hv'.
  pose proof (stage_m_pos w b g Hb Hg) as Hm.
  pose proof (stage_m_le_v' w b g) as Hmv.
  pose proof (stage_g_bounds w b g Hg) as Hgb.
  pose proof (stage_g_divides_m w b g) as Hgm.
  apply Z.divide_pos_le in Hgm; [|lia].
  assert (Hv2 : stage_v (stage_w' w b g) b = stage_v' w b g).
  { unfold stage_v. rewrite int_max1, Hx, Qfloor_Z. lia. }
  assert (Hg2 : stage_g (stage_w' w b g) b (stage_g w b g) = stage_g w b g).
  { unfold stage_g at 1. rewrite Hv2. lia. }
  assert (Hm2 : stage_m (stage_w' w b g) b (stage_g w b g) = stage_m w b g).
  { unfold stage_m. rewrite Hg2. reflexivity. }
  assert (Hv2' : stage_v' (stage_w' w b g) b (stage_g w b g) = stage_v' w b g).
  { unfold stage_v' at 1. rewrite Hm2, Hv2.
    destruct (stage_m_divides_v' w b g) as [k Hk].
    assert (Hq : (Py.truediv (stage_v' w b g) (stage_m w b g) == inject_Z k)%Q).
    { unfold Py.truediv. rewrite Hk at 1. rewrite inject_Z_mult. field.
      change 0%Q with (inject_Z 0). rewrite inject_Z_injective. lia. }
    rewrite Hq, round_inject. lia. }
  split; [|exact Hg2].
  unfold stage_w' at 1. rewrite Hv2'. reflexivity.
Qed.

Lemma stages_checked ws bs gs :
  adjust_precondition ws bs gs ->
  forallb (fun '(w, b, g) => compatible (stage_w' w b g) b (stage_g w b g)) (zip3 ws bs gs) = true ->
  Forall stage_checked (zip3 ws bs gs).
Proof.
  intros (H1 & H2 & Hpos & Hadm) Hall.
  apply all_positive_Forall in Hpos.
  apply (ratios_admissible_Forall ws bs gs H1 H2) in Hadm.
  rewrite forallb_forall in Hall. rewrite Forall_forall in Hpos, Hadm.
  apply Forall_forall. intros [[w b] g] Hin.
  destruct (Hpos _ Hin) as (_ & Hb & Hg). specialize (Hadm _ Hin). cbn in Hadm.
  apply list_elem_of_In in Hin. specialize (Hall _ Hin). cbn in Hall.
  unfold stage_checked. auto.
Qed.

Lemma adjust_ok_inv ws bs gs ws' bs' gs' :
  adjust_block_compatibility ws bs gs = Ok (ws', bs', gs') ->
  adjust_precondition ws bs gs /\
  ws' = map3 stage_w' ws bs gs /\ bs' = bs /\ gs' = map3 stage_g ws bs gs /\
  Forall stage_checked (zip3 ws bs gs).
Proof.
  intros Hok. pose proof (adjust_ok_precondition _ _ _ _ Hok) as Hpre.
  rewrite adjust_unfold in Hok by exact Hpre.
  destruct (forallb _ _) eqn:Hall; [|discriminate]. injection Hok as <- <- <-.
  split; [exact Hpre|]. repeat split; try reflexivity.
  apply stages_checked; assumption.
Qed.

Lemma adjusted_precondition ws bs gs :
  adjust_precondition ws bs gs ->
  Forall stage_checked (zip3 ws bs gs) ->
  adjust_precondition (map3 stage_w' ws bs gs) bs (map3 stage_g ws bs gs).
Proof.
  intros (H1 & H2 & Hpos & Hadm) Hchk. unfold adjust_precondition.
  rewrite !map3_length by assumption.
  split; [exact H1|]. split; [congruence|]. split; [|exact Hadm].
  unfold all_positive. rewrite zip3_map3 by assumption.
  apply forallb_forall. intros [[w' b'] g'] Hin. apply list_elem_of_In in Hin.
  apply list_elem_of_fmap in Hin as ([[w b] g] & Heq & Hin). injection Heq as -> -> ->.
  rewrite Forall_forall in Hchk. destruct (Hchk _ Hin) as (Hb & Hg & Ha & _).
  pose proof (stage_w'_pos w b g Hb Hg Ha). pose proof (stage_g_bounds w b g Hg).
  apply andb_true_iff. split; [apply andb_true_iff; split|].
  - apply Z.ltb_lt. lia.
  - apply ltb_lt, Hb.
  - apply Z.ltb_lt. lia.
Qed.



(** ** Adjusted stages can be built *)

Lemma checked_stage_buildable w b g :
  stage_checked (w, b, g) -> buildable (stage_w' w b g) b (stage_g w b g).
Proof.
  intros (Hb & Hg & Ha & Hc) w_in stride se bn_eps bn_mom.
  pose proof (stage_exact w b g Hb Hg Ha Hc) as Hx.
  pose proof (stage_g_bounds w b g Hg) as Hgb.
  pose proof (stage_g_divides_v' w b g) as [k Hk].
  pose proof (stage_v'_pos w b g Hb Hg) as Hv'.
  assert (Hwb : Py.round (inject_Z (stage_w' w b g) * b) = stage_v' w b g).
  { rewrite Hx. apply round_inject. }
  assert (Hq : stage_v' w b g / stage_g w b g = k).
  { rewrite Hk. apply Z.div_mul. lia. }
  assert (Hk1 : 1 <= k) by nia.
  destruct (bottleneck_transform_built w_in (stage_w' w b g) stride
              {| bot_mul := Some b; group_w := Some (stage_g w b g); se_r := se |}
              bn_eps bn_mom b (stage_g w b g)) as [m Hm];
    [reflexivity | reflexivity | lia | rewrite Hwb, Hq; lia |].
  exists m. split; [exact Hm|].
  destruct (bottleneck_transform_inv _ _ _ _ _ _ _ Hm)
    as (b0 & g0 & [= <-] & [= <-] & _ & _ & Ea & _ & Eb & _).
  rewrite Ea, Eb. cbn [conv_out conv_group projection]. rewrite Hwb, Hq.
  split; [symmetry; exact Hx|]. split; [lia | exact Hk1].
Qed.



(** ** The stages of the width quantizer *)

Lemma count_insert_keys (P : Z -> Prop) x tbl :
  P x -> Forall P tbl.*1 -> Forall P (count_insert x tbl).*1.
Proof.
  intros Hx. induction tbl as [|[y c] rest IH]; intros Hall.
  - repeat constructor. exact Hx.
  - cbn [count_insert]. cbn [fmap list_fmap fst] in Hall. inversion Hall as [|? ? Hy Hrest]; subst.
    destruct (x <? y); [|destruct (x =? y)]; cbn [fmap list_fmap fst].
    + constructor; [exact Hx | constructor; assumption].
    + constructor; assumption.
    + constructor; [exact Hy | apply IH, Hrest].
Qed.

Lemma count_insert_sorted x tbl :
  StronglySorted Z.lt tbl.*1 -> StronglySorted Z.lt (count_insert x tbl).*1.
Proof.
  induction tbl as [|[y c] rest IH]; intros Hs.
  - repeat constructor.
  - cbn [count_insert]. cbn [fmap list_fmap fst] in Hs.
    inversion Hs as [|? ? Hrest Hlt]; subst.
    destruct (x <? y) eqn:E1; [|destruct (x =? y) eqn:E2]; cbn [fmap list_fmap fst].
    + apply Z.ltb_lt in E1. constructor; [constructor; assumption|].
      constructor; [exact E1|]. eapply Forall_impl; [exact Hlt|]. cbn. intros. lia.
    + constructor; assumption.
    + apply Z.ltb_ge in E1. apply Z.eqb_neq in E2.
      constructor; [apply IH, Hrest|]. apply count_insert_keys; [lia | exact Hlt].
Qed.

Lemma count_insert_counts x tbl :
  Forall (Z.le 1) tbl.*2 -> Forall (Z.le 1) (count_insert x tbl).*2.
Proof.
  induction tbl as [|[y c] rest IH]; intros Hall.
  - constructor; [reflexivity | constructor].
  - cbn [count_insert]. cbn [fmap list_fmap snd] in Hall. inversion Hall as [|? ? Hc Hrest]; subst.
    destruct (x <? y); [|destruct (x =? y)]; cbn [fmap list_fmap snd].
    + constructor; [reflexivity | constructor; assumption].
    + constructor; [lia | assumption].
    + constructor; [exact Hc | apply IH, Hrest].
Qed.

Lemma unique_counts_spec (P : Z -> Prop) a :
  Forall P a ->
  StronglySorted Z.lt (np_unique_counts a).1 /\
  Forall P (np_unique_counts a).1 /\
  Forall (Z.le 1) (np_unique_counts a).2.
Proof.
  unfold np_unique_counts. cbn [fst snd]. induction a as [|x a IH]; intros Hall.
  - repeat constructor.
  - inversion Hall as [|? ? Hx Ha]; subst. destruct (IH Ha) as (Hs & Hk & Hc).
    cbn [foldr]. split; [apply count_insert_sorted, Hs|].
    split; [apply count_insert_keys; assumption | apply count_insert_counts, Hc].
Qed.

Lemma np_max_ok a m : np_max a = Ok m -> (0 < length a)%nat.
Proof. destruct a; [discriminate | cbn; lia]. Qed.

Lemma length_le_total l : Forall (Z.le 1) l -> Z.of_nat (length l) <= total l.
Proof.
  induction 1 as [|c l Hc _ IH]; [reflexivity|].
  unfold total in *. cbn [length foldr]. lia.
Qed.



(** ** When the quantizer raises *)

Lemma entry_check_true w_a w_0 w_m :
  Qle_bool 0 w_a && (0 <? w_0) && Py.ltb 1 w_m = true
  <-> (0 <= w_a)%Q /\ 0 < w_0 /\ (1 < w_m)%Q.
Proof.
  rewrite !andb_true_iff, Qle_bool_iff, Z.ltb_lt, ltb_lt. tauto.
Qed.

Lemma ks_nonempty round_log w_a w_0 w_m d :
  0 < d -> exists k ks', ks_of round_log (ws_cont_of w_a w_0 d) w_0 w_m = k :: ks'.
Proof.
  intros Hd. unfold ks_of, ws_cont_of, arange.
  destruct (Z.to_nat d) eqn:En; [lia|]. cbn [seq fmap list_fmap]. eauto.
Qed.

Lemma ks_empty round_log w_a w_0 w_m d :
  d <= 0 -> ks_of round_log (ws_cont_of w_a w_0 d) w_0 w_m = [].
Proof.
  intros Hd. unfold ks_of, ws_cont_of, arange.
  replace (Z.to_nat d) with 0%nat by lia. reflexivity.
Qed.

(** X4.  The generator returns a schedule exactly when its parameters are
    valid ([w_a >= 0], [w_0 > 0], [w_m > 1], [q] non-zero and dividing [w_0])
    and the depth is positive; otherwise it raises. *)
Theorem generate_regnet_returns_iff round_log w_a w_0 w_m d q :
  (exists r, generate_regnet round_log w_a w_0 w_m d q = Ok r)
  <-> design_space_ok w_a w_0 w_m q /\ 0 < d.
Proof.
  unfold generate_regnet, design_space_ok. split.
  - intros [r Hr].
    destruct (Qle_bool 0 w_a && (0 <? w_0) && Py.ltb 1 w_m) eqn:E1; [|discriminate].
    apply entry_check_true in E1. cbn [py_assert mbind result_bind] in Hr.
    destruct (q =? 0) eqn:E2; [discriminate|]. apply Z.eqb_neq in E2.
    cbn [mbind result_bind] in Hr.
    destruct (w_0 mod q =? 0) eqn:E3; [|discriminate]. apply Z.eqb_eq in E3.
    cbn [py_assert mbind result_bind] in Hr.
    destruct (np_unique_counts _) in Hr.
    destruct (np_max _) eqn:Emax; [|discriminate]. apply np_max_ok in Emax.
    unfold ks_of, ws_cont_of in Emax. rewrite !length_fmap, arange_length in Emax.
    repeat split; try tauto. lia.
  - intros [(Ha & H0 & Hm & Hq & Hmod) Hd].
    rewrite (proj2 (entry_check_true w_a w_0 w_m)) by tauto.
    apply Z.eqb_neq in Hq. apply Z.eqb_eq in Hmod. rewrite Hq, Hmod.
    cbn [py_assert mbind result_bind].
    destruct (ks_nonempty round_log w_a w_0 w_m d Hd) as (k & ks' & ->).
    destruct (np_unique_counts _). cbn [np_max mbind result_bind]. eauto.
Qed.

(** X5.  Which exception the generator raises: a failed entry assertion is
    an [AssertionError]; a zero quantum with otherwise valid parameters is a
    [ZeroDivisionError] from [w_0 % q]; and a depth of zero or less with valid
    parameters is the [ValueError] of [ks.max()] on an empty array. *)
Theorem generate_regnet_exceptions round_log w_a w_0 w_m d q :
  (~ ((0 <= w_a)%Q /\ 0 < w_0 /\ (1 < w_m)%Q) ->
     generate_regnet round_log w_a w_0 w_m d q = Raise (AssertionError "")) /\
  ((0 <= w_a)%Q /\ 0 < w_0 /\ (1 < w_m)%Q -> q = 0 ->
     generate_regnet round_log w_a w_0 w_m d q = Raise ZeroDivisionError) /\
  ((0 <= w_a)%Q /\ 0 < w_0 /\ (1 < w_m)%Q -> q <> 0 -> w_0 mod q <> 0 ->
     generate_regnet round_log w_a w_0 w_m d q = Raise (AssertionError "")) /\
  (design_space_ok w_a w_0 w_m q -> d <= 0 ->
     exists msg, generate_regnet round_log w_a w_0 w_m d q = Raise (ValueError msg)).
Proof.
  unfold generate_regnet, design_space_ok. repeat split.
  - intros Hn. destruct (Qle_bool 0 w_a && (0 <? w_0) && Py.ltb 1 w_m) eqn:E1; [|reflexivity].
    apply entry_check_true in E1. contradiction.
  - intros Hv ->. rewrite (proj2 (entry_check_true w_a w_0 w_m) Hv). reflexivity.
  - intros Hv Hq Hmod. rewrite (proj2 (entry_check_true w_a w_0 w_m) Hv).
    apply Z.eqb_neq in Hq, Hmod. rewrite Hq, Hmod. reflexivity.
  - intros (Ha & H0 & Hm & Hq & Hmod) Hd.
    rewrite (proj2 (entry_check_true w_a w_0 w_m)) by tauto.
    apply Z.eqb_neq in Hq. apply Z.eqb_eq in Hmod. rewrite Hq, Hmod.
    cbn [py_assert mbind result_bind]. rewrite (ks_empty round_log w_a w_0 w_m d Hd).
    destruct (np_unique_counts _). cbn [np_max mbind result_bind]. eauto.
Qed.

Lemma generate_regnet_exceptions_witness :
  generate_regnet round_log_exact (-1)%Q 24 (249 # 100) 13 8 = Raise (AssertionError "") /\
  generate_regnet round_log_exact (3644 # 100) 24 (249 # 100) 13 0 = Raise ZeroDivisionError /\
  generate_regnet round_log_exact (3644 # 100) 24 (249 # 100) 13 7 = Raise (AssertionError "") /\
  exists msg,
    generate_regnet round_log_exact (3644 # 100) 24 (249 # 100) 0 8 = Raise (ValueError msg).
Proof.
  split; [|split; [|split]].
  - destruct (generate_regnet_exceptions round_log_exact (-1)%Q 24 (249 # 100) 13 8)
      as (H1 & _).
    apply H1. intros [H _]. apply (Qle_not_lt _ _ H). reflexivity.
  - destruct (generate_regnet_exceptions round_log_exact (3644 # 100) 24 (249 # 100) 13 0)
      as (_ & H2 & _).
    apply H2; [repeat split; (discriminate || reflexivity) | reflexivity].
  - destruct (generate_regnet_exceptions round_log_exact (3644 # 100) 24 (249 # 100) 13 7)
      as (_ & _ & H3 & _).
    apply H3; [repeat split; (discriminate || reflexivity) | lia | discriminate].
  - destruct (generate_regnet_exceptions round_log_exact (3644 # 100) 24 (249 # 100) 0 8)
      as (_ & _ & _ & H4).
    apply H4; [repeat split; (discriminate || reflexivity || lia) | lia].
Defined.

(** ** Cost rules *)

Lemma conv2d_cx_ok cx w_in w_out k stride groups bias :
  k mod 2 = 1 -> stride <> 0 -> groups <> 0 ->
  conv2d_cx cx w_in w_out k stride groups bias
  = Ok {| h := (h cx - 1) / stride + 1; w := (w cx - 1) / stride + 1;
          flops := flops cx
                   + (k * k * w_in * w_out * ((h cx - 1) / stride + 1) * ((w cx - 1) / stride + 1)
                        / groups
                      + (if bias then w_out * ((h cx - 1) / stride + 1) * ((w cx - 1) / stride + 1)
                         else 0));
          params := params cx + (k * k * w_in * w_out / groups + (if bias then w_out else 0));
          acts := acts cx + w_out * ((h cx - 1) / stride + 1) * ((w cx - 1) / stride + 1) |}.
Proof.
  intros Hk Hs Hg. unfold conv2d_cx, floordiv.
  apply Z.eqb_eq in Hk. apply Z.eqb_neq in Hs, Hg. rewrite Hk, Hs, Hg. reflexivity.
Qed.

(** X6.  The cost rule of the squeeze-excite gate always returns; it leaves
    the spatial size of the cost state as it was and adds
    [2 * w_in * w_se + w_se + w_in] to both the multiply-adds and the
    parameters, and [w_se + w_in] to the activations. *)
Theorem SE_complexity_formula cx w_in w_se :
  SE_complexity cx w_in w_se
  = Ok {| h := h cx; w := w cx;
          flops := flops cx + (2 * w_in * w_se + w_se + w_in);
          params := params cx + (2 * w_in * w_se + w_se + w_in);
          acts := acts cx + (w_se + w_in) |}.
Proof.
  unfold SE_complexity.
  rewrite conv2d_cx_ok by (reflexivity || lia). cbn [mbind result_bind].
  rewrite conv2d_cx_ok by (reflexivity || lia). cbn [mbind result_bind].
  unfold set_hw, gap2d_cx. cbn [h w flops params acts].
  change ((1 - 1) / 1 + 1) with 1. rewrite !Z.div_1_r.
  f_equal. f_equal; lia.
Qed.

(** X7.  The cost rule of the head always returns and ends at spatial size
    1x1.  With a head width above 0 it adds the parameters of the 1x1
    projection, its normalization and the biased classifier; otherwise only
    those of the classifier on the incoming width. *)
Theorem AnyHead_complexity_formula cx w_in head_w num_classes :
  exists cx',
    AnyHead_complexity cx w_in head_w num_classes = Ok cx' /\
    h cx' = 1 /\ w cx' = 1 /\
    params cx' = params cx +
      (if 0 <? head_w
       then w_in * head_w + 2 * head_w + (head_w * num_classes + num_classes)
       else w_in * num_classes + num_classes).
Proof.
  unfold AnyHead_complexity. destruct (0 <? head_w).
  - rewrite conv2d_cx_ok by (reflexivity || lia). cbn [mbind result_bind].
    eexists. split; [reflexivity|]. cbn. rewrite Z.div_1_r. repeat split. lia.
  - cbn [mbind result_bind]. eexists. split; [reflexivity|]. cbn. repeat split.
Qed.

Lemma odd_padding k : k mod 2 = 1 -> 2 * ((k - 1) / 2) = k - 1.
Proof. intros Hk. lia_div. Qed.

(** X8.  For a convolution and for a padded max-pool built by the helpers,
    the cost rule called with the same arguments reaches the spatial size of
    the layer's output: the padding [(k - 1) // 2] chosen for an odd kernel
    makes a layer of stride [s] map a side [n] to [(n - 1) // s + 1]. *)
Theorem cost_rules_track_layer_shape cx ch w_in w_out k stride groups bias :
  (forall c cx',
     conv2d w_in w_out k stride groups bias = Ok c ->
     conv2d_cx cx w_in w_out k stride groups bias = Ok cx' ->
     run_conv c ((ch, h cx, w cx) : Shape) = (w_out, h cx', w cx')) /\
  (forall p cx',
     pool2d w_in k stride = Ok p ->
     pool2d_cx cx w_in k stride = Ok cx' ->
     run_pool p ((ch, h cx, w cx) : Shape) = (ch, h cx', w cx')).
Proof.
  split.
  - intros c cx'. unfold conv2d, conv2d_cx, floordiv.
    destruct (k mod 2 =? 1) eqn:Ek; [|discriminate]. apply Z.eqb_eq in Ek.
    cbn [py_assert mbind result_bind].
    destruct (groups =? 0); [discriminate|]. cbn [mbind result_bind]. intros [= <-].
    destruct (stride =? 0); [discriminate|]. cbn [mbind result_bind]. intros [= <-].
    cbn. unfold window. rewrite (odd_padding k Ek).
    replace (h cx + (k - 1) - k) with (h cx - 1) by lia.
    replace (w cx + (k - 1) - k) with (w cx - 1) by lia. reflexivity.
  - intros p cx'. unfold pool2d, pool2d_cx, floordiv.
    destruct (k mod 2 =? 1) eqn:Ek; [|discriminate]. apply Z.eqb_eq in Ek.
    cbn [py_assert mbind result_bind]. intros [= <-].
    destruct (stride =? 0); [discriminate|]. cbn [mbind result_bind]. intros [= <-].
    cbn. unfold window. rewrite (odd_padding k Ek).
    replace (h cx + (k - 1) - k) with (h cx - 1) by lia.
    replace (w cx + (k - 1) - k) with (w cx - 1) by lia. reflexivity.
Qed.

Lemma cost_rules_track_layer_shape_witness :
  exists c cx',
    conv2d 3 32 3 2 1 false = Ok c /\
    conv2d_cx {| h := 224; w := 224; flops := 0; params := 0; acts := 0 |} 3 32 3 2 1 false
      = Ok cx' /\
    run_conv c ((3, 224, 224) : Shape) = (32, h cx', w cx').
Proof.
  eexists _, _. split; [reflexivity|]. split; [reflexivity|].
  apply (proj1 (cost_rules_track_layer_shape
                  {| h := 224; w := 224; flops := 0; params := 0; acts := 0 |}
                  3 3 32 3 2 1 false)); reflexivity.
Defined.

(** Every helper that takes a kernel size rejects an even one with the
    odd-kernel assertion error, whatever its other arguments are, and a
    convolution with zero groups divides by zero. *)
Theorem even_kernels_rejected cx w_in w_out k stride groups bias :
  k mod 2 = 0 ->
  conv2d w_in w_out k stride groups bias = Raise (AssertionError odd_kernel_msg) /\
  conv2d_cx cx w_in w_out k stride groups bias = Raise (AssertionError odd_kernel_msg) /\
  pool2d w_in k stride = Raise (AssertionError odd_kernel_msg) /\
  pool2d_cx cx w_in k stride = Raise (AssertionError odd_kernel_msg) /\
  (forall k', k' mod 2 = 1 ->
     conv2d w_in w_out k' stride 0 bias = Raise ZeroDivisionError /\
     (stride <> 0 -> conv2d_cx cx w_in w_out k' stride 0 bias = Raise ZeroDivisionError)).
Proof.
  intros Hk. unfold conv2d, conv2d_cx, pool2d, pool2d_cx.
  assert (Ek : (k mod 2 =? 1) = false) by (apply Z.eqb_neq; lia).
  rewrite Ek. repeat split; try reflexivity.
  - apply Z.eqb_eq in H. rewrite H. reflexivity.
  - intros Hs. apply Z.eqb_eq in H. rewrite H. unfold floordiv.
    apply Z.eqb_neq in Hs. rewrite Hs. reflexivity.
Qed.

Lemma even_kernels_rejected_witness :
  conv2d 3 32 2 1 1 false = Raise (AssertionError odd_kernel_msg).
Proof.
  apply (even_kernels_rejected {| h := 8; w := 8; flops := 0; params := 0; acts := 0 |}
           3 32 2 1 1 false). reflexivity.
Defined.

(** ** Stages *)

Lemma AnyStage_blocks_spec n w_in w_out stride cls ps bn_eps bn_mom bl :
  AnyStage_blocks n w_in w_out stride cls ps bn_eps bn_mom = Ok bl ->
  length bl = n /\
  match bl with
  | [] => True
  | first :: rest =>
      block_new cls w_in w_out stride ps bn_eps bn_mom = Ok first /\
      Forall (fun b => block_new cls w_out w_out 1 ps bn_eps bn_mom = Ok b) rest
  end.
Proof.
  revert w_in stride bl. induction n as [|n IH]; intros w_in stride bl; cbn [AnyStage_blocks].
  - intros [= <-]. split; [reflexivity | exact I].
  - destruct (block_new cls w_in w_out stride ps bn_eps bn_mom) as [first|] eqn:Ef;
      [|discriminate]. cbn [mbind result_bind].
    destruct (AnyStage_blocks n w_out w_out 1 cls ps bn_eps bn_mom) as [rest|] eqn:Er;
      [|discriminate]. cbn [mbind result_bind]. intros [= <-].
    destruct (IH _ _ _ Er) as [Hlen Hrest]. split; [cbn; congruence|].
    split; [reflexivity|]. destruct rest as [|b rest]; [constructor|].
    destruct Hrest as [Hb Hall]. constructor; assumption.
Qed.

(** X9.  A stage that is built holds [max(d, 0)] blocks.  The first is
    constructed from the stage's input width and stride; every later block
    is constructed from [(w_out, w_out, 1)], so the later blocks are all the
    same block. *)
Theorem AnyStage_init_blocks w_in w_out stride d cls ps bn_eps bn_mom st :
  AnyStage_init w_in w_out stride d cls ps bn_eps bn_mom = Ok st ->
  Z.of_nat (length (blocks st)) = Z.max d 0 /\
  (0 < d ->
   exists first,
     block_new cls w_in w_out stride ps bn_eps bn_mom = Ok first /\
     (d = 1 /\ blocks st = [first] \/
      exists later,
        block_new cls w_out w_out 1 ps bn_eps bn_mom = Ok later /\
        blocks st = first :: replicate (Z.to_nat d - 1) later)).
Proof.
  unfold AnyStage_init.
  destruct (AnyStage_blocks _ _ _ _ _ _ _ _) as [bl|] eqn:Eb; [|discriminate].
  cbn [mbind result_bind]. intros [= <-]. cbn [blocks].
  destruct (AnyStage_blocks_spec _ _ _ _ _ _ _ _ _ Eb) as [Hlen Hshape].
  split; [lia|]. intros Hd.
  destruct bl as [|first rest]; [cbn in Hlen; lia|].
  destruct Hshape as [Hfirst Hrest]. exists first. split; [exact Hfirst|].
  destruct rest as [|later rest]; [left; split; [cbn in Hlen; lia | reflexivity]|].
  right. exists later. inversion Hrest as [|? ? Hl Hall]; subst. split; [exact Hl|].
  f_equal. cbn [length] in Hlen.
  replace (Z.to_nat d - 1)%nat with (S (length rest)) by lia. cbn [replicate]. f_equal.
  clear -Hl Hall. induction Hall as [|b rest Hb _ IH]; [reflexivity|].
  cbn [length replicate]. f_equal; [congruence | exact IH].
Qed.

Lemma AnyStage_init_blocks_witness :
  match AnyStage_init 24 56 2 3 ResBasicBlock_class
          {| bot_mul := None; group_w := None; se_r := 0%Q |} (1 # 100000) (9 # 10) with
  | Ok st => Z.of_nat (length (blocks st)) = Z.max 3 0
  | Raise _ => False
  end.
Proof.
  destruct (AnyStage_init 24 56 2 3 ResBasicBlock_class
              {| bot_mul := None; group_w := None; se_r := 0%Q |} (1 # 100000) (9 # 10))
    as [st|e] eqn:E.
  - apply (AnyStage_init_blocks _ _ _ _ _ _ _ _ _ E).
  - vm_compute in E. discriminate E.
Defined.

Lemma vocabulary_classes tag cls :
  block_funs !! tag = Some cls ->
  cls = VanillaBlock_class \/ cls = ResBasicBlock_class \/
  cls = ResBottleneckBlock_class \/ cls = ResBottleneckLinearBlock_class.
Proof.
  unfold block_funs. intros Hl.
  repeat (apply lookup_insert_Some in Hl as [[_ <-]|[_ Hl]]; [tauto|]).
  apply lookup_singleton_Some in Hl as [_ <-]. tauto.
Qed.

Lemma later_block_identity tag cls w_out ps bn_eps bn_mom b :
  block_funs !! tag = Some cls ->
  block_new cls w_out w_out 1 ps bn_eps bn_mom = Ok b -> identity_shortcut b.
Proof.
  intros Hl. destruct (vocabulary_classes tag cls Hl) as [-> | [-> | [-> | ->]]];
    cbn [block_new VanillaBlock_class ResBasicBlock_class ResBottleneckBlock_class
         ResBottleneckLinearBlock_class]; unfold lift.
  - destruct (VanillaBlock_init _ _ _ _ _ _); [|discriminate].
    cbn [mbind result_bind]. intros [= <-]. exact I.
  - unfold ResBasicBlock_init. rewrite Z.eqb_refl. cbn [negb orb mbind result_bind].
    destruct (BasicTransform_init _ _ _ _ _ _); [|discriminate].
    cbn [mbind result_bind]. intros [= <-]. split; reflexivity.
  - unfold ResBottleneckBlock_init. rewrite Z.eqb_refl. cbn [negb orb mbind result_bind].
    destruct (BottleneckTransform_init _ _ _ _ _ _); [|discriminate].
    cbn [mbind result_bind]. intros [= <-]. split; reflexivity.
  - unfold ResBottleneckLinearBlock_init. rewrite Z.eqb_refl.
    destruct (BottleneckTransform_init _ _ _ _ _ _); [|discriminate].
    cbn [mbind result_bind]. intros [= <-]. reflexivity.
Qed.

(** X10.  In a stage built from any block kind of the vocabulary, only the
    first block can change width or resolution: every later block has the
    identity shortcut (no projection and no normalization of the shortcut in
    the residual blocks, the skip connection in the linear block). *)
Theorem stage_later_blocks_identity tag cls w_in w_out stride d ps bn_eps bn_mom st :
  block_funs !! tag = Some cls ->
  AnyStage_init w_in w_out stride d cls ps bn_eps bn_mom = Ok st ->
  Forall identity_shortcut (tail (blocks st)).
Proof.
  intros Hl. unfold AnyStage_init.
  destruct (AnyStage_blocks _ _ _ _ _ _ _ _) as [bl|] eqn:Eb; [|discriminate].
  cbn [mbind result_bind]. intros [= <-]. cbn [blocks].
  destruct (AnyStage_blocks_spec _ _ _ _ _ _ _ _ _ Eb) as [_ Hshape].
  destruct bl as [|first rest]; cbn [tl]; [constructor|].
  destruct Hshape as [_ Hrest]. eapply Forall_impl; [exact Hrest|].
  intros b Hb. exact (later_block_identity tag cls w_out ps bn_eps bn_mom b Hl Hb).
Qed.

Lemma stage_later_blocks_identity_witness :
  match AnyStage_init 32 24 2 3 ResBottleneckBlock_class
          {| bot_mul := Some 1%Q; group_w := Some 8; se_r := 0%Q |} (1 # 100000) (9 # 10) with
  | Ok st => Forall identity_shortcut (tail (blocks st))
  | Raise _ => False
  end.
Proof.
  destruct (AnyStage_init 32 24 2 3 ResBottleneckBlock_class
              {| bot_mul := Some 1%Q; group_w := Some 8; se_r := 0%Q |} (1 # 100000) (9 # 10))
    as [st|e] eqn:E.
  - apply (stage_later_blocks_identity "res_bottleneck_block" _ _ _ _ _ _ _ _ _
             ltac:(reflexivity) E).
  - vm_compute in E. discriminate E.
Defined.

(** X11.  For the block classes of the vocabulary the cost rule of a stage
    returns exactly when the stage has no block ([d <= 0]), and then it
    returns the cost state unchanged; with one block or more it raises. *)
Theorem stage_cost_rule_returns_iff tag cls cx w_in w_out stride d ps :
  block_funs !! tag = Some cls ->
  (forall cx', AnyStage_complexity cx w_in w_out stride d cls ps = Ok cx' -> d <= 0 /\ cx' = cx) /\
  (d <= 0 -> AnyStage_complexity cx w_in w_out stride d cls ps = Ok cx).
Proof.
  intros Hl. split.
  - intros cx' Hok. destruct (Z_le_gt_dec d 0) as [Hd|Hd].
    + split; [exact Hd|]. unfold AnyStage_complexity in Hok.
      replace (Z.to_nat d) with 0%nat in Hok by lia. cbn in Hok. congruence.
    + destruct (stage_complexity_fails tag cls cx w_in w_out stride d ps Hl) as [msg Hm];
        [lia|]. congruence.
  - intros Hd. unfold AnyStage_complexity.
    replace (Z.to_nat d) with 0%nat by lia. reflexivity.
Qed.

Lemma stage_cost_rule_returns_iff_witness :
  AnyStage_complexity {| h := 56; w := 56; flops := 0; params := 0; acts := 0 |}
    32 24 2 0 ResBottleneckBlock_class {| bot_mul := Some 1%Q; group_w := Some 8; se_r := 0%Q |}
  = Ok {| h := 56; w := 56; flops := 0; params := 0; acts := 0 |}.
Proof.
  apply (proj2 (stage_cost_rule_returns_iff "res_bottleneck_block" ResBottleneckBlock_class
                  {| h := 56; w := 56; flops := 0; params := 0; acts := 0 |} 32 24 2 0
                  {| bot_mul := Some 1%Q; group_w := Some 8; se_r := 0%Q |} ltac:(reflexivity))).
  lia.
Defined.

(** ** Assembly *)

Lemma stem_new_ok tag cls w_in w_out bn_eps bn_mom :
  stem_funs !! tag = Some cls -> exists st, stem_new cls w_in w_out bn_eps bn_mom = Ok st.
Proof.
  unfold stem_funs. intros Hl.
  repeat (apply lookup_insert_Some in Hl as [[_ <-]|[_ Hl]];
          [cbn [stem_new ResStemCifar_class ResStem_class]; unfold lift; eauto|]).
  apply lookup_singleton_Some in Hl as [_ <-].
  cbn [stem_new SimpleStem_class]. unfold lift. eauto.
Qed.

Lemma AnyHead_init_ok w_in head_w num_classes bn_eps bn_mom :
  exists hd, AnyHead_init w_in head_w num_classes bn_eps bn_mom = Ok hd /\
             dense_out (head_fc hd) = num_classes.
Proof.
  unfold AnyHead_init. destruct (0 <? head_w).
  - rewrite conv2d_1x1. cbn [mbind result_bind]. eexists. split; reflexivity.
  - eexists. split; reflexivity.
Qed.

Lemma AnyNet_stages_length rows prev_w cls se bn_eps bn_mom sts w_last :
  AnyNet_stages rows prev_w cls se bn_eps bn_mom = Ok (sts, w_last) ->
  length sts = length rows.
Proof.
  revert prev_w sts w_last. induction rows as [|[[[[d w_] s] b] g] rows IH];
    intros prev_w sts w_last; cbn [AnyNet_stages].
  - intros [= <- _]. reflexivity.
  - destruct (AnyStage_init _ _ _ _ _ _ _ _); [|discriminate]. cbn [mbind result_bind].
    destruct (AnyNet_stages rows _ _ _ _ _) as [[sts' w']|] eqn:Er; [|discriminate].
    cbn [mbind result_bind fst snd]. intros [= <- _]. cbn [length].
    f_equal. eapply IH, Er.
Qed.

Lemma or_nones_length {A B} (xs : list A) (depths : list B) :
  length (or_nones xs depths) = match xs with [] => length depths | _ => length xs end.
Proof. destruct xs; cbn [or_nones]; rewrite length_fmap; reflexivity. Qed.

(** X12.  An assembled network has as many stages as the shortest of its
    per-stage lists: [zip] silently drops the entries beyond it.  An empty
    list of ratios or of group widths counts as one [None] per depth. *)
Theorem AnyNet_stage_count depths stem_type stem_w block_type widths strides bot_muls
    group_ws head_w num_classes bn_eps bn_mom net :
  AnyNet_init depths stem_type stem_w block_type widths strides bot_muls group_ws
    head_w num_classes bn_eps bn_mom = Ok net ->
  length (stages net)
  = Nat.min (Nat.min (Nat.min (Nat.min (length depths) (length widths)) (length strides))
               (match bot_muls with [] => length depths | _ => length bot_muls end))
      (match group_ws with [] => length depths | _ => length group_ws end).
Proof.
  unfold AnyNet_init.
  destruct (get_stem_fun _); [|discriminate]. cbn [mbind result_bind].
  destruct (get_block_fun _); [|discriminate]. cbn [mbind result_bind].
  destruct (stem_new _ _ _ _ _); [|discriminate]. cbn [mbind result_bind].
  destruct (AnyNet_stages _ _ _ _ _ _) as [[sts w_last]|] eqn:Es; [|discriminate].
  cbn [mbind result_bind].
  destruct (AnyHead_init _ _ _ _ _); [|discriminate]. cbn [mbind result_bind].
  intros [= <-]. cbn [stages].
  rewrite (AnyNet_stages_length _ _ _ _ _ _ _ _ Es).
  unfold stage_rows, anynet_get_params.
  cbn [p_depths p_widths p_strides p_bot_muls p_group_ws].
  rewrite !length_zip, !or_nones_length. reflexivity.
Qed.

Lemma AnyNet_stage_count_witness :
  match AnyNet_init [1; 2; 3] "res_stem_in" 64 "res_basic_block" [64; 128] [1; 2; 2] [] []
          0 10 (1 # 100000) (9 # 10) with
  | Ok net => length (stages net) = 2%nat
  | Raise _ => False
  end.
Proof.
  destruct (AnyNet_init [1; 2; 3] "res_stem_in" 64 "res_basic_block" [64; 128] [1; 2; 2] [] []
              0 10 (1 # 100000) (9 # 10)) as [net|e] eqn:E.
  - apply (AnyNet_stage_count _ _ _ _ _ _ _ _ _ _ _ _ _ E).
  - vm_compute in E. discriminate E.
Defined.

Lemma get_block_fun_known tag cls :
  block_funs !! tag = Some cls -> get_block_fun tag = Ok cls.
Proof.
  intros Hsome. unfold get_block_fun.
  rewrite bool_decide_eq_true_2; [|rewrite elem_of_dom, Hsome; eauto].
  cbn [py_assert mbind result_bind]. rewrite Hsome. reflexivity.
Qed.

Lemma AnyStage_blocks_ok cls w_out ps bn_eps bn_mom :
  (forall w_in stride, exists blk, block_new cls w_in w_out stride ps bn_eps bn_mom = Ok blk) ->
  forall n w_in stride,
    exists bl, AnyStage_blocks n w_in w_out stride cls ps bn_eps bn_mom = Ok bl.
Proof.
  intros Hnew n. induction n as [|n IH]; intros w_in stride; cbn [AnyStage_blocks]; [eauto|].
  destruct (Hnew w_in stride) as [blk ->]. cbn [mbind result_bind].
  destruct (IH w_out 1) as [bl ->]. cbn [mbind result_bind]. eauto.
Qed.

Lemma AnyNet_stages_ok cls se bn_eps bn_mom rows :
  Forall (row_builds cls se bn_eps bn_mom) rows ->
  forall prev_w, exists sts w_last,
    AnyNet_stages rows prev_w cls se bn_eps bn_mom = Ok (sts, w_last).
Proof.
  induction 1 as [|[[[[d w_] s] b] g] rows Hrow _ IH]; intros prev_w; cbn [AnyNet_stages];
    [eauto|].
  unfold AnyStage_init.
  destruct (AnyStage_blocks_ok cls w_ _ bn_eps bn_mom Hrow (Z.to_nat d) prev_w s) as [bl ->].
  cbn [mbind result_bind]. destruct (IH w_) as (sts & w_last & ->).
  cbn [mbind result_bind]. eauto.
Qed.

Lemma AnyNet_init_ok depths stem_type stem_w block_type widths strides bot_muls group_ws
    head_w num_classes bn_eps bn_mom scls cls :
  stem_funs !! stem_type = Some scls ->
  block_funs !! block_type = Some cls ->
  Forall (row_builds cls 0 bn_eps bn_mom)
    (stage_rows (anynet_get_params depths stem_type stem_w block_type widths strides
                   bot_muls group_ws head_w num_classes)) ->
  exists net,
    AnyNet_init depths stem_type stem_w block_type widths strides bot_muls group_ws
      head_w num_classes bn_eps bn_mom = Ok net /\
    dense_out (head_fc (head net)) = num_classes.
Proof.
  intros Hs Hb Hrows. unfold AnyNet_init.
  cbn [p_stem_type p_block_type p_stem_w p_se_r p_head_w p_num_classes anynet_get_params].
  rewrite (get_stem_fun_known _ _ Hs), (get_block_fun_known _ _ Hb).
  cbn [mbind result_bind].
  destruct (stem_new_ok stem_type scls 3 stem_w bn_eps bn_mom Hs) as [st ->].
  cbn [mbind result_bind].
  destruct (AnyNet_stages_ok cls 0 bn_eps bn_mom _ Hrows stem_w) as (sts & w_last & ->).
  cbn [mbind result_bind].
  destruct (AnyHead_init_ok w_last head_w num_classes bn_eps bn_mom) as (hd & -> & Hfc).
  cbn [mbind result_bind]. eexists. split; [reflexivity | exact Hfc].
Qed.

Lemma plain_block_builds cls w_in w_out stride ps bn_eps bn_mom :
  cls = VanillaBlock_class \/ cls = ResBasicBlock_class ->
  exists blk, block_new cls w_in w_out stride ps bn_eps bn_mom = Ok blk.
Proof.
  intros [-> | ->]; cbn [block_new VanillaBlock_class ResBasicBlock_class]; unfold lift.
  - unfold VanillaBlock_init. rewrite !conv2d_ok by (reflexivity || lia).
    cbn [mbind result_bind]. eauto.
  - unfold ResBasicBlock_init.
    destruct (shortcut_choice w_in w_out stride bn_eps bn_mom) as (proj & bn & -> & _).
    destruct (basic_transform_built w_in w_out stride ps bn_eps bn_mom) as [f ->].
    cbn [mbind result_bind]. eauto.
Qed.



Lemma bottleneck_needs_ratio cls w_in w_out stride g se bn_eps bn_mom :
  cls = ResBottleneckBlock_class \/ cls = ResBottleneckLinearBlock_class ->
  exists msg,
    block_new cls w_in w_out stride {| bot_mul := None; group_w := g; se_r := se |}
      bn_eps bn_mom = Raise (TypeError msg).
Proof.
  intros [-> | ->];
    cbn [block_new ResBottleneckBlock_class ResBottleneckLinearBlock_class]; unfold lift.
  - unfold ResBottleneckBlock_init.
    destruct (shortcut_choice w_in w_out stride bn_eps bn_mom) as (proj & bn & -> & _).
    cbn. eauto.
  - unfold ResBottleneckLinearBlock_init. cbn. eauto.
Qed.



(** ** Assembling a generated schedule *)

Lemma vocabulary_block_builds tag cls w_in w_ stride b g se bn_eps bn_mom :
  block_funs !! tag = Some cls -> buildable w_ b g ->
  exists blk,
    block_new cls w_in w_ stride {| bot_mul := Some b; group_w := Some g; se_r := se |}
      bn_eps bn_mom = Ok blk.
Proof.
  intros Hl Hbuild.
  destruct (vocabulary_classes tag cls Hl) as [-> | [-> | [-> | ->]]].
  - apply plain_block_builds. tauto.
  - apply plain_block_builds. tauto.
  - cbn [block_new ResBottleneckBlock_class]. unfold lift, ResBottleneckBlock_init.
    destruct (shortcut_choice w_in w_ stride bn_eps bn_mom) as (proj & bn & -> & _).
    destruct (Hbuild w_in stride se bn_eps bn_mom) as (m & -> & _).
    cbn [mbind result_bind]. eauto.
  - cbn [block_new ResBottleneckLinearBlock_class].
    unfold lift, ResBottleneckLinearBlock_init.
    destruct (Hbuild w_in stride se bn_eps bn_mom) as (m & -> & _).
    cbn [mbind result_bind]. eauto.
Qed.

Lemma adjusted_buildable ws bs gs ws' bs' gs' :
  adjust_block_compatibility ws bs gs = Ok (ws', bs', gs') ->
  length ws' = length ws /\ length bs' = length ws /\ length gs' = length ws /\
  Forall (fun '(w, b, g) => buildable w b g) (zip3 ws' bs' gs').
Proof.
  intros Hok. destruct (adjust_ok_inv _ _ _ _ _ _ Hok) as (Hpre & -> & -> & -> & Hchk).
  destruct Hpre as (H1 & H2 & _).
  rewrite !map3_length by assumption. repeat split; try congruence.
  rewrite zip3_map3 by assumption. apply Forall_fmap.
  eapply Forall_impl; [exact Hchk|].
  intros [[w b] g] Hc. cbn. apply checked_stage_buildable, Hc.
Qed.

Lemma generate_regnet_full_inv round_log w_a w_0 w_m d stride b_mul g_w ws' ds ss bs gs' :
  generate_regnet_full round_log w_a w_0 w_m d stride b_mul g_w = Ok (ws', ds, ss, bs, gs') ->
  exists ws,
    length ds = length ws /\ ss = (fun _ => stride) <$> ws /\ total ds = d /\
    adjust_block_compatibility ws ((fun _ => b_mul) <$> ws) ((fun _ => g_w) <$> ws)
      = Ok (ws', bs, gs').
Proof.
  unfold generate_regnet_full.
  destruct (generate_regnet round_log w_a w_0 w_m d 8)
    as [[[[[[ws ds0] n] t] wall] wcont]|] eqn:Eg; [|discriminate].
  cbn [mbind result_bind].
  destruct (adjust_block_compatibility _ _ _) as [[[ws1 bs1] gs1]|] eqn:Ea; [|discriminate].
  cbn [mbind result_bind]. intros [= <- <- <- <- <-].
  exists ws. split; [|split; [reflexivity|split; [|exact Ea]]].
  - revert Eg. unfold generate_regnet.
    destruct (_ && _ && _); [|discriminate]. cbn [py_assert mbind result_bind].
    destruct (8 =? 0); [discriminate|]. cbn [mbind result_bind].
    destruct (w_0 mod 8 =? 0); [|discriminate]. cbn [py_assert mbind result_bind].
    pose proof (unique_counts_length
                  (ws_all_of (ks_of round_log (ws_cont_of w_a w_0 d) w_0 w_m) w_0 w_m 8)) as Hul.
    destruct (np_unique_counts _) as [ws0 ds1]. cbn [fst snd] in Hul.
    destruct (np_max _); [|discriminate]. cbn [mbind result_bind].
    intros [= <- <- _ _ _ _]. symmetry. exact Hul.
  - revert Eg. unfold generate_regnet.
    destruct (_ && _ && _); [|discriminate]. cbn [py_assert mbind result_bind].
    destruct (8 =? 0); [discriminate|]. cbn [mbind result_bind].
    destruct (w_0 mod 8 =? 0); [|discriminate]. cbn [py_assert mbind result_bind].
    set (all := ws_all_of (ks_of round_log (ws_cont_of w_a w_0 d) w_0 w_m) w_0 w_m 8).
    pose proof (unique_counts_total all) as Htot.
    assert (Hlen : length all = Z.to_nat d).
    { unfold all, ws_all_of, ks_of, ws_cont_of. rewrite !length_fmap. apply arange_length. }
    destruct (np_unique_counts all) as [ws0 ds1]. cbn [fst snd] in Htot.
    destruct (np_max _) eqn:Emax; [|discriminate]. cbn [mbind result_bind].
    apply np_max_ok in Emax.
    unfold ks_of, ws_cont_of in Emax. rewrite !length_fmap, arange_length in Emax.
    intros [= <- <- _ _ _ _]. rewrite Htot, Hlen. lia.
Qed.

Lemma zip3_const_elem (ws : list Z) b g w0 b0 g0 :
  (w0, b0, g0) ∈ zip3 ws ((fun _ => b) <$> ws) ((fun _ => g) <$> ws) -> b0 = b /\ g0 = g.
Proof.
  unfold zip3. intros Hin. split.
  - apply elem_of_zip_l, elem_of_zip_r in Hin. apply list_elem_of_fmap in Hin as (? & -> & _).
    reflexivity.
  - apply elem_of_zip_r in Hin. apply list_elem_of_fmap in Hin as (? & -> & _). reflexivity.
Qed.



Lemma or_nones_lookup {A B} (xs : list A) (depths : list B) i o :
  or_nones xs depths !! i = Some o ->
  (xs = [] /\ o = None) \/ (exists x, xs !! i = Some x /\ o = Some x).
Proof.
  destruct xs as [|x0 xs]; cbn [or_nones]; rewrite list_lookup_fmap; intros Hl.
  - left. destruct (depths !! i); cbn in Hl; [|discriminate]. split; congruence.
  - right. destruct ((x0 :: xs) !! i) as [x|]; cbn in Hl; [|discriminate].
    exists x. split; congruence.
Qed.

Lemma schedule_rows_build tag cls se bn_eps bn_mom ds ws ss bs gs :
  block_funs !! tag = Some cls ->
  length bs = length ws -> length gs = length ws ->
  Forall (fun '(w, b, g) => buildable w b g) (zip3 ws bs gs) ->
  Forall (row_builds cls se bn_eps bn_mom)
    (zip (zip (zip (zip ds ws) ss) (or_nones bs ds)) (or_nones gs ds)).
Proof.
  intros Hl Hlb Hlg Hbuild. apply Forall_lookup. intros i [[[[d w_] s] ob] og] Hrow.
  apply lookup_zip_with_Some in Hrow as (r1 & og' & [= <- <-] & Hr1 & Hog).
  apply lookup_zip_with_Some in Hr1 as (r2 & ob' & [= <- <-] & Hr2 & Hob).
  apply lookup_zip_with_Some in Hr2 as (r3 & s' & [= <- <-] & Hr3 & _).
  apply lookup_zip_with_Some in Hr3 as (d' & w' & [= <- <-] & _ & Hw).
  assert (Hi : (i < length ws)%nat) by (eapply lookup_lt_Some, Hw).
  destruct (or_nones_lookup _ _ _ _ Hob) as [[-> _] | (b & Hb & ->)];
    [cbn in Hlb; lia|].
  destruct (or_nones_lookup _ _ _ _ Hog) as [[-> _] | (g & Hg & ->)];
    [cbn in Hlg; lia|].
  assert (Hin : (w_, b, g) ∈ zip3 ws bs gs).
  { apply list_elem_of_lookup. exists i. unfold zip3.
    apply lookup_zip_with_Some. exists (w_, b), g. split; [reflexivity|]. split; [|exact Hg].
    apply lookup_zip_with_Some. exists w_, b. auto. }
  rewrite Forall_forall in Hbuild. specialize (Hbuild _ Hin). cbn in Hbuild.
  intros w_in stride. eapply vocabulary_block_builds; eassumption.
Qed.



(** ** The forward pass of an assembled network *)

Section Forward.
Context {T : Type} `{TensorOps T}.

Lemma built_block_runs tag cls w_in w_out stride ps bn_eps bn_mom b :
  block_funs !! tag = Some cls ->
  block_new cls w_in w_out stride ps bn_eps bn_mom = Ok b -> runs b.
Proof.
  intros Hl. destruct (vocabulary_classes tag cls Hl) as [-> | [-> | [-> | ->]]];
    cbn [block_new VanillaBlock_class ResBasicBlock_class ResBottleneckBlock_class
         ResBottleneckLinearBlock_class]; unfold lift.
  - destruct (VanillaBlock_init _ _ _ _ _ _); [|discriminate].
    cbn [mbind result_bind]. intros [= <-] x. cbn. eauto.
  - unfold ResBasicBlock_init.
    destruct (negb (w_in =? w_out) || negb (stride =? 1));
      rewrite ?conv2d_1x1; cbn [mbind result_bind];
      (destruct (BasicTransform_init _ _ _ _ _ _); [|discriminate]);
      cbn [mbind result_bind fst snd]; intros [= <-] x; cbn; eauto.
  - unfold ResBottleneckBlock_init.
    destruct (negb (w_in =? w_out) || negb (stride =? 1));
      rewrite ?conv2d_1x1; cbn [mbind result_bind];
      (destruct (BottleneckTransform_init _ _ _ _ _ _); [|discriminate]);
      cbn [mbind result_bind fst snd]; intros [= <-] x; cbn; eauto.
  - destruct (ResBottleneckLinearBlock_init _ _ _ _ _ _); [|discriminate].
    cbn [mbind result_bind]. intros [= <-] x. cbn. eauto.
Qed.

Lemma run_blocks_total bl : Forall runs bl -> forall x : T, exists y, run_blocks bl x = Ok y.
Proof.
  induction 1 as [|b bl Hb _ IH]; intros x; cbn [run_blocks]; [eauto|].
  destruct (Hb x) as [y ->]. cbn [mbind result_bind]. apply IH.
Qed.

Lemma built_stage_runs tag cls w_in w_out stride d ps bn_eps bn_mom st :
  block_funs !! tag = Some cls ->
  AnyStage_init w_in w_out stride d cls ps bn_eps bn_mom = Ok st ->
  forall x : T, exists y, AnyStage_construct st x = Ok y.
Proof.
  intros Hl. unfold AnyStage_init.
  destruct (AnyStage_blocks _ _ _ _ _ _ _ _) as [bl|] eqn:Eb; [|discriminate].
  cbn [mbind result_bind]. intros [= <-]. unfold AnyStage_construct. cbn [blocks].
  apply run_blocks_total.
  destruct (AnyStage_blocks_spec _ _ _ _ _ _ _ _ _ Eb) as [_ Hshape].
  destruct bl as [|first rest]; [constructor|]. destruct Hshape as [Hfirst Hrest].
  constructor; [eapply built_block_runs; eassumption|].
  eapply Forall_impl; [exact Hrest|]. intros b Hb.
  exact (built_block_runs tag cls w_out w_out 1 ps bn_eps bn_mom b Hl Hb).
Qed.

Lemma built_stages_run tag cls rows prev_w se bn_eps bn_mom sts w_last :
  block_funs !! tag = Some cls ->
  AnyNet_stages rows prev_w cls se bn_eps bn_mom = Ok (sts, w_last) ->
  forall x : T, exists y, run_stages sts x = Ok y.
Proof.
  intros Hl. revert prev_w sts w_last.
  induction rows as [|[[[[d w_] s] b] g] rows IH]; intros prev_w sts w_last;
    cbn [AnyNet_stages].
  - intros [= <- _] x. cbn. eauto.
  - destruct (AnyStage_init _ _ _ _ _ _ _ _) as [st|] eqn:Est; [|discriminate].
    cbn [mbind result_bind].
    destruct (AnyNet_stages rows _ _ _ _ _) as [[sts' w']|] eqn:Er; [|discriminate].
    cbn [mbind result_bind fst snd]. intros [= <- _] x. cbn [run_stages].
    destruct (built_stage_runs _ _ _ _ _ _ _ _ _ _ Hl Est x) as [y ->].
    cbn [mbind result_bind]. eapply IH, Er.
Qed.

Lemma built_head_runs w_in head_w num_classes bn_eps bn_mom hd :
  AnyHead_init w_in head_w num_classes bn_eps bn_mom = Ok hd ->
  forall x : T, exists z,
    AnyHead_features hd x = Ok z /\
    AnyHead_construct hd x = Ok (run_dense (linear (if 0 <? head_w then head_w else w_in)
                                              num_classes true) (run_view z)).
Proof.
  unfold AnyHead_init, AnyHead_construct, AnyHead_features.
  destruct (0 <? head_w) eqn:Eh.
  - rewrite conv2d_1x1. cbn [mbind result_bind]. intros [= <-] x.
    cbn [head_width head_conv head_bn head_af head_avg_pool head_fc]. rewrite Eh.
    cbn [mbind result_bind]. eauto.
  - intros [= <-] x.
    cbn [head_width head_conv head_bn head_af head_avg_pool head_fc]. rewrite Eh.
    cbn [mbind result_bind]. eauto.
Qed.

End Forward.

Lemma get_block_fun_inv tag cls : get_block_fun tag = Ok cls -> block_funs !! tag = Some cls.
Proof.
  unfold get_block_fun. destruct (bool_decide _); [|discriminate].
  cbn [py_assert mbind result_bind]. destruct (block_funs !! tag); [|discriminate].
  congruence.
Qed.

Lemma built_head_shape w_in head_w num_classes bn_eps bn_mom hd (x : Shape) :
  AnyHead_init w_in head_w num_classes bn_eps bn_mom = Ok hd ->
  AnyHead_construct hd x = Ok (num_classes, 1, 1).
Proof.
  destruct x as [[c hh] ww]. unfold AnyHead_init, AnyHead_construct, AnyHead_features.
  destruct (0 <? head_w) eqn:Eh.
  - rewrite conv2d_1x1. cbn [mbind result_bind]. intros [= <-].
    cbn [head_width head_conv head_bn head_af head_avg_pool head_fc]. rewrite Eh. reflexivity.
  - intros [= <-].
    cbn [head_width head_conv head_bn head_af head_avg_pool head_fc]. rewrite Eh. reflexivity.
Qed.


